(** * Aurox Clarity controller: protocol framing, transactions and decoding

    A shallow embedding of [aurox_clarity/controller.py].  Python integers
    are [Z], Python lists of integers are [list Z], exceptions are values of
    [exn] carried by [result], and the HID handle of the external [hid]
    package is an interface ([Hid]) over an abstract handle state. *)

From stdpp Require Import base numbers list strings relations.

Local Open Scope Z_scope.

(** ** Wire constants (module level of controller.py) *)

Definition VENDORID : Z := 0x1F0A.
Definition PIDRUN : Z := 0x0088.

Definition SLEEP : Z := 0x7F.
Definition RUN : Z := 0x0F.

Definition DOORCLSD : Z := 0x01.
Definition DOOROPEN : Z := 0x02.

Definition DSKPOS0 : Z := 0x00.
Definition DSKPOS1 : Z := 0x01.
Definition DSKPOS2 : Z := 0x02.
Definition DSKPOS3 : Z := 0x03.
Definition DSKERR : Z := 0xFF.
Definition DSKMID : Z := 0x10.

Definition FLTPOS1 : Z := 0x01.
Definition FLTPOS2 : Z := 0x02.
Definition FLTPOS3 : Z := 0x03.
Definition FLTPOS4 : Z := 0x04.
Definition FLTERR : Z := 0xFF.
Definition FLTMID : Z := 0x10.

Definition CALON : Z := 0x01.
Definition CALOFF : Z := 0x02.

Definition GETVERSION : Z := 0x00.
Definition CMDERROR : Z := 0xFF.

Definition GETONOFF : Z := 0x12.
Definition GETDOOR : Z := 0x13.
Definition GETDISK : Z := 0x14.
Definition GETFILT : Z := 0x15.
Definition GETCAL : Z := 0x16.
Definition GETSERIAL : Z := 0x19.
Definition FULLSTAT : Z := 0x1F.

Definition SETONOFF : Z := 0x21.
Definition SETDISK : Z := 0x23.
Definition SETFILT : Z := 0x24.
Definition SETCAL : Z := 0x25.

Definition SETSVCMODE1 : Z := 0xE0.

(** ** Exceptions and results *)

(** The exceptions the module can meet: [IndexError] is raised by the list
    indexing of the module itself, [HidError] stands for whatever the
    handle's methods raise (the module catches nothing). *)
Inductive exn : Type :=
  | IndexError
  | HidError (what : string).

Inductive result (A : Type) : Type :=
  | Return (a : A)
  | Raise (e : exn).
Arguments Return {A} a.
Arguments Raise {A} e.

(** Sequencing of statements that may raise: [x ← r; k] runs [k] on the
    value of [r] and propagates what [r] raises. *)
#[global] Instance result_bind : MBind result := λ A B k r,
  match r with
  | Return a => k a
  | Raise e => Raise e
  end.

Definition is_Return {A : Type} (r : result A) : Prop :=
  ∃ a, r = Return a.

Definition is_Raise {A : Type} (r : result A) : Prop :=
  ∃ e, r = Raise e.

(** ** Python list primitives *)

(** [l[i]] for a non-negative literal index. *)
Definition getitem (l : list Z) (i : nat) : result Z :=
  match l !! i with
  | Some x => Return x
  | None => Raise IndexError
  end.

(** [l[i] = v] for a non-negative literal index: out of range raises, the
    list is never extended. *)
Definition setitem (l : list Z) (i : nat) (v : Z) : result (list Z) :=
  if decide (i < length l)%nat then Return (<[i:=v]> l) else Raise IndexError.

(** [[x] * n]: empty when [n] is zero or negative. *)
Definition list_repeat (x : Z) (n : Z) : list Z := replicate (Z.to_nat n) x.

(** ** Frame construction (sendCommand, lines 138-140) *)

Definition frame (command param maxLength : Z) : result (list Z) :=
  let buffer := list_repeat 0x00 maxLength in
  buffer ← setitem buffer 1 command;
  buffer ← setitem buffer 2 param;
  Return buffer.

(** ** The HID handle (external package [hid])

    The module uses three methods of the handle returned by [hid.device()].
    Each may change the handle's state and either returns or raises.  A
    call that never returns (a blocking read with no timeout) has no
    counterpart here: what is proved is about calls that end. *)
Class Hid (H : Type) : Type := {
  hid_write : H → list Z → H * result Z;
  hid_read : H → Z → Z → H * result (list Z);
  hid_close : H → H * result ();
}.

(** Method calls made on the handle, in the order they are made. *)
Inductive call : Type :=
  | CallWrite (buffer : list Z)
  | CallRead (maxLength timeoutMs : Z)
  | CallClose.

(** ** The Controller object

    [_hiddevice] and [_lock] are the two attributes set by [__init__];
    [_lock] is [true] while the [threading.Lock] is held.  [calls] is a ghost
    field: the calls made on the handle so far.  Only fully constructed
    controllers are modelled, so [hasattr(self, "_hiddevice")] holds. *)
Record Controller (H : Type) : Type := mkController {
  _hiddevice : H;
  _lock : bool;
  calls : list call;
}.
Arguments mkController {H} _ _ _.
Arguments _hiddevice {H} _.
Arguments _lock {H} _.
Arguments calls {H} _.

(** The value returned by [getFullStat]. *)
Record FullStat : Type := mkFullStat {
  version : Z * Z * Z;
  onOff : Z;
  door : Z;
  disk : Z;
  filt : Z;
  cal : Z;
}.

(** The outcome of a method call that runs alone: [None] when the call never
    returns (it waits for a lock nobody releases), otherwise the controller
    afterwards and the value returned or the exception raised. *)
Definition outcome (H A : Type) : Type := option (Controller H * result A).

(** The call ends by raising. *)
Definition fails {H A : Type} (o : outcome H A) : Prop :=
  ∃ c e, o = Some (c, Raise e).

Section controller.
Context {H : Type} `{!Hid H}.

(** The handle after a method call on it, with the call recorded. *)
Definition called (c : Controller H) (h : H) (k : call) : Controller H :=
  mkController h (_lock c) (calls c ++ [k]).

(** [__enter__] of [with self._lock]: blocks while the lock is held. *)
Definition acquire (c : Controller H) : option (Controller H) :=
  if _lock c then None else Some (mkController (_hiddevice c) true (calls c)).

(** [__exit__] of [with self._lock], on normal and exceptional exit. *)
Definition release (c : Controller H) : Controller H :=
  mkController (_hiddevice c) false (calls c).

(** Lines 138-143: the body of the [with] block. *)
Definition transaction (c : Controller H)
    (command param maxLength timeoutMs : Z) : Controller H * result (list Z) :=
  match frame command param maxLength with
  | Raise e => (c, Raise e)
  | Return buffer =>
      let '(h, result) := hid_write (_hiddevice c) buffer in
      let c := called c h (CallWrite buffer) in
      match result with
      | Raise e => (c, Raise e)
      | Return _ =>
          let '(h, answer) := hid_read (_hiddevice c) maxLength timeoutMs in
          (called c h (CallRead maxLength timeoutMs), answer)
      end
  end.

Definition sendCommand (c : Controller H)
    (command param maxLength timeoutMs : Z) : outcome H (list Z) :=
  c ← acquire c;
  let '(c, answer) := transaction c command param maxLength timeoutMs in
  Some (release c, answer).

(** [__del__]: the handle's [close] is called whenever the attribute
    exists; the lock plays no part. *)
Definition __del__ (c : Controller H) : outcome H () :=
  let '(h, r) := hid_close (_hiddevice c) in
  Some (called c h CallClose, r).

(** A method body [res = self.sendCommand(...); return f(res)]. *)
Definition returning {A : Type} (o : outcome H (list Z))
    (f : list Z → result A) : outcome H A :=
  '(c, res) ← o; Some (c, res ≫= f).

(** Below, every call of [sendCommand] spells out the defaults of the
    arguments the source leaves out: param 0, maxLength 16, timeoutMs 100. *)

(** A method that drops the answer and returns [None]. *)
Definition no_value (res : list Z) : result () := Return ().

Definition switchOn (c : Controller H) : outcome H () :=
  returning (sendCommand c SETONOFF RUN 16 100) no_value.

Definition switchOff (c : Controller H) : outcome H () :=
  returning (sendCommand c SETONOFF SLEEP 16 100) no_value.

(** [return res[1]] *)
Definition status_byte (res : list Z) : result Z := getitem res 1.

Definition getOnOff (c : Controller H) : outcome H Z :=
  returning (sendCommand c GETONOFF 0 16 100) status_byte.

Definition setDiskPosition (c : Controller H) (newDiskPosition : Z) : outcome H () :=
  returning (sendCommand c SETDISK newDiskPosition 16 100) no_value.

Definition getDiskPosition (c : Controller H) : outcome H Z :=
  returning (sendCommand c GETDISK 0 16 100) status_byte.

Definition setFilterPosition (c : Controller H) (filterPosition : Z) : outcome H () :=
  returning (sendCommand c SETFILT filterPosition 16 100) no_value.

Definition getFilterPosition (c : Controller H) : outcome H Z :=
  returning (sendCommand c GETFILT 0 16 100) status_byte.

Definition setCalibrationLED (c : Controller H) (calLED : Z) : outcome H () :=
  returning (sendCommand c SETCAL calLED 16 100) no_value.

Definition getCalibrationLED (c : Controller H) : outcome H Z :=
  returning (sendCommand c GETCAL 0 16 100) status_byte.

Definition getDoor (c : Controller H) : outcome H Z :=
  returning (sendCommand c GETDOOR 0 16 100) status_byte.

(** [getSerialNumber]'s return expression; the operands are evaluated left
    to right, so [res[4]] is the first element read. *)
Definition serial_number (res : list Z) : result Z :=
  a ← getitem res 4; b ← getitem res 4;
  c ← getitem res 3; d ← getitem res 3;
  e ← getitem res 2; f ← getitem res 2;
  g ← getitem res 1; h ← getitem res 1;
  Return ((a `div` 16) * 10000000
          + (b `mod` 16) * 1000000
          + (c `div` 16) * 100000
          + (d `mod` 16) * 10000
          + (e `div` 16) * 1000
          + (f `mod` 16) * 100
          + (g `div` 16) * 10
          + (h `mod` 16)).

Definition getSerialNumber (c : Controller H) : outcome H Z :=
  returning (sendCommand c GETSERIAL 0 16 100) serial_number.

(** [getFullStat]'s return value: the six-element list
    [[(res[1], res[2], res[3]), res[4], res[5], res[6], res[7], res[8]]],
    its positions named as in the docstring. *)
Definition full_stat (res : list Z) : result FullStat :=
  v1 ← getitem res 1; v2 ← getitem res 2; v3 ← getitem res 3;
  s4 ← getitem res 4;
  s5 ← getitem res 5;
  s6 ← getitem res 6;
  s7 ← getitem res 7;
  s8 ← getitem res 8;
  Return (mkFullStat (v1, v2, v3) s4 s5 s6 s7 s8).

Definition getFullStat (c : Controller H) : outcome H FullStat :=
  returning (sendCommand c FULLSTAT 0 16 100) full_stat.

(** [getVersion]'s return value [(res[1], res[2], res[3])]. *)
Definition version_triple (res : list Z) : result (Z * Z * Z) :=
  v1 ← getitem res 1; v2 ← getitem res 2; v3 ← getitem res 3;
  Return (v1, v2, v3).

Definition getVersion (c : Controller H) : outcome H (Z * Z * Z) :=
  returning (sendCommand c GETVERSION 0 16 100) version_triple.

End controller.

(** ** Packed BCD, as the protocol describes it

    The serial number is four bytes, least significant first, each holding
    two decimal digits with the more significant one in the high nibble.
    [bcd_digits] lists the digits least significant first and [decimal] is
    the sum of [digit_i * 10^i]. *)
Definition bcd_digits (bytes : list Z) : list Z :=
  b ← bytes; [b `mod` 16; b `div` 16].

Fixpoint decimal_from (i : nat) (digits : list Z) : Z :=
  match digits with
  | [] => 0
  | d :: digits => d * 10 ^ Z.of_nat i + decimal_from (S i) digits
  end.

Definition decimal (digits : list Z) : Z := decimal_from 0 digits.

(** ** A scripted handle

    A stand-in for the device in examples: [write] always gives
    [write_gives]; [read] gives the next entry of [replies], and an empty
    list of bytes once they are used up (what a timed-out read of the [hid]
    package gives); [close] only counts.  Nothing stops the script from
    answering after [close]. *)
Record Scripted : Type := mkScripted {
  write_gives : result Z;
  replies : list (result (list Z));
  closed : nat;
}.

#[global] Instance scripted_hid : Hid Scripted := {
  hid_write h buffer := (h, write_gives h);
  hid_read h maxLength timeoutMs :=
    match replies h with
    | [] => (h, Return [])
    | r :: rs => (mkScripted (write_gives h) rs (closed h), r)
    end;
  hid_close h := (mkScripted (write_gives h) (replies h) (S (closed h)), Return ());
}.

(** A fresh controller on a scripted handle whose writes report [n] bytes. *)
Definition scripted (n : Z) (rs : list (result (list Z))) : Controller Scripted :=
  mkController (mkScripted (Return n) rs 0) false [].

(** The same controller after one 16-byte transaction that used up the
    first reply, leaving [rs]. *)
Definition answered (n : Z) (rs : list (result (list Z)))
    (command param : Z) : Controller Scripted :=
  mkController (mkScripted (Return n) rs 0) false
    [CallWrite (0 :: command :: param :: replicate 13 0); CallRead 16 100].

(** Replies used in the examples: serial number 1234, and a full status
    with version 1.2.3, running, door closed, disk position 2, filter
    position 3, calibration LED on. *)
Definition reply_serial_1234 : list Z :=
  [0; 0x34; 0x12; 0x00; 0x00; 0; 0; 0; 0; 0; 0; 0; 0; 0; 0; 0].

Definition reply_full_stat : list Z :=
  [0; 1; 2; 3; RUN; DOORCLSD; DSKPOS2; FLTPOS3; CALON; 0; 0; 0; 0; 0; 0; 0].

(** ** Threads sharing one Controller

    Each thread is either outside [sendCommand] or at one of its program
    points.  A step is one thread doing the next thing; the handle, the lock
    and the record of calls are shared. *)
Module Threads.

Inductive pc : Type :=
  | Idle
  | Waiting (command param maxLength timeoutMs : Z)
  | Building (command param maxLength timeoutMs : Z)
  | Writing (buffer : list Z) (maxLength timeoutMs : Z)
  | Reading (maxLength timeoutMs : Z)
  | Leaving (answer : result (list Z)).

(** A call on the handle by thread [who]; [returned] is false when the call
    raised. *)
Record event : Type := mkEvent {
  who : nat;
  what : call;
  returned : bool;
}.

Definition returns {A : Type} (r : result A) : bool :=
  match r with Return _ => true | Raise _ => false end.

Record system (H : Type) : Type := mkSystem {
  handle : H;
  lock : bool;
  threads : list pc;
  trace : list event;
}.
Arguments mkSystem {H} _ _ _ _.
Arguments handle {H} _.
Arguments lock {H} _.
Arguments threads {H} _.
Arguments trace {H} _.

(** [n] threads, none of them inside [sendCommand] yet. *)
Definition init {H : Type} (h : H) (n : nat) : system H :=
  mkSystem h false (replicate n Idle) [].

(** Between [__enter__] and [__exit__] of the [with] block. *)
Definition inside (p : pc) : bool :=
  match p with
  | Idle | Waiting _ _ _ _ => false
  | Building _ _ _ _ | Writing _ _ _ | Reading _ _ | Leaving _ => true
  end.

Section steps.
Context {H : Type} `{!Hid H}.

Inductive step : system H → system H → Prop :=
  | step_call s t command param maxLength timeoutMs :
      threads s !! t = Some Idle →
      step s (mkSystem (handle s) (lock s)
                (<[t := Waiting command param maxLength timeoutMs]> (threads s))
                (trace s))
  | step_acquire s t command param maxLength timeoutMs :
      threads s !! t = Some (Waiting command param maxLength timeoutMs) →
      lock s = false →
      step s (mkSystem (handle s) true
                (<[t := Building command param maxLength timeoutMs]> (threads s))
                (trace s))
  | step_build s t command param maxLength timeoutMs :
      threads s !! t = Some (Building command param maxLength timeoutMs) →
      step s (mkSystem (handle s) (lock s)
                (<[t := match frame command param maxLength with
                        | Return buffer => Writing buffer maxLength timeoutMs
                        | Raise e => Leaving (Raise e)
                        end]> (threads s))
                (trace s))
  | step_write s t buffer maxLength timeoutMs h result :
      threads s !! t = Some (Writing buffer maxLength timeoutMs) →
      hid_write (handle s) buffer = (h, result) →
      step s (mkSystem h (lock s)
                (<[t := match result with
                        | Return _ => Reading maxLength timeoutMs
                        | Raise e => Leaving (Raise e)
                        end]> (threads s))
                (trace s ++ [mkEvent t (CallWrite buffer) (returns result)]))
  | step_read s t maxLength timeoutMs h answer :
      threads s !! t = Some (Reading maxLength timeoutMs) →
      hid_read (handle s) maxLength timeoutMs = (h, answer) →
      step s (mkSystem h (lock s)
                (<[t := Leaving answer]> (threads s))
                (trace s ++ [mkEvent t (CallRead maxLength timeoutMs) (returns answer)]))
  | step_release s t answer :
      threads s !! t = Some (Leaving answer) →
      step s (mkSystem (handle s) false (<[t := Idle]> (threads s)) (trace s)).

End steps.

(** At most one thread is inside the [with] block. *)
Definition exclusive (ps : list pc) : Prop :=
  ∀ i j p q, ps !! i = Some p → ps !! j = Some q →
    inside p = true → inside q = true → i = j.

(** Every write that returned is directly followed by a read of the same
    thread, unless it is the last call made so far. *)
Definition write_then_own_read (tr : list event) : Prop :=
  ∀ i t buffer, tr !! i = Some (mkEvent t (CallWrite buffer) true) →
    (S i < length tr)%nat →
    ∃ maxLength timeoutMs ok,
      tr !! S i = Some (mkEvent t (CallRead maxLength timeoutMs) ok).

(** Every read directly follows a write of the same thread that returned. *)
Definition read_after_own_write (tr : list event) : Prop :=
  ∀ i t maxLength timeoutMs ok,
    tr !! i = Some (mkEvent t (CallRead maxLength timeoutMs) ok) →
    ∃ j buffer, i = S j ∧ tr !! j = Some (mkEvent t (CallWrite buffer) true).

(** The calls made so far form whole transactions: a write that raised, or a
    write that returned followed by the same thread's read. *)
Inductive whole : list event → Prop :=
  | whole_nil : whole []
  | whole_aborted tr t buffer :
      whole tr → whole (tr ++ [mkEvent t (CallWrite buffer) false])
  | whole_pair tr t buffer maxLength timeoutMs ok :
      whole tr →
      whole (tr ++ [mkEvent t (CallWrite buffer) true;
                    mkEvent t (CallRead maxLength timeoutMs) ok]).

(** No thread is between its write and its read. *)
Definition no_reader (ps : list pc) : Prop :=
  ∀ i maxLength timeoutMs, ps !! i ≠ Some (Reading maxLength timeoutMs).

(** What holds of every state the threads can reach: one thread at most is
    inside, the lock is held whenever one is, and the calls made so far are
    whole transactions, plus the returned write of the thread that is about
    to read, if there is one. *)
Definition invariant {H : Type} (s : system H) : Prop :=
  exclusive (threads s)
  ∧ (∀ i p, threads s !! i = Some p → inside p = true → lock s = true)
  ∧ ((whole (trace s) ∧ no_reader (threads s))
     ∨ ∃ i maxLength timeoutMs tr buffer,
         threads s !! i = Some (Reading maxLength timeoutMs)
         ∧ trace s = tr ++ [mkEvent i (CallWrite buffer) true]
         ∧ whole tr).

End Threads.

(** Two threads on a scripted handle with one reply: thread 0 has done a
    whole getOnOff transaction and left; thread 1, which asked while thread
    0 held the lock, has now written its frame and is about to read. *)
Definition two_threads_later : Threads.system Scripted :=
  Threads.mkSystem (mkScripted (Return 16) [] 0) true
    [Threads.Idle; Threads.Reading 16 100]
    [Threads.mkEvent 0 (CallWrite (0 :: GETONOFF :: 0 :: replicate 13 0)) true;
     Threads.mkEvent 0 (CallRead 16 100) true;
     Threads.mkEvent 1 (CallWrite (0 :: GETDOOR :: 0 :: replicate 13 0)) true].

(** ** A handle that closes as the [hid] package's device does

    What [hid.device()] gives, as far as open and closed go: once [close]
    has been called, [write] and [read] raise ("not open") without touching
    the device, and another [close] does nothing and returns.  While open it
    answers like the scripted handle. *)
Record Device : Type := mkDevice {
  dev_open : bool;
  dev_write_gives : result Z;
  dev_replies : list (result (list Z));
}.

#[global] Instance device_hid : Hid Device := {
  hid_write h buffer :=
    if dev_open h then (h, dev_write_gives h)
    else (h, Raise (HidError "not open"));
  hid_read h maxLength timeoutMs :=
    if dev_open h then
      match dev_replies h with
      | [] => (h, Return [])
      | r :: rs => (mkDevice true (dev_write_gives h) rs, r)
      end
    else (h, Raise (HidError "not open"));
  hid_close h := (mkDevice false (dev_write_gives h) (dev_replies h), Return ());
}.

(** The same behaviour as a condition on any handle: [closed] holds of a
    handle after [close], which returns; on a closed handle [write] raises
    and leaves it as it is, and [close] does nothing and returns. *)
Record closes_like_hid {H : Type} `{!Hid H} (closed : H → Prop) : Prop := {
  close_closes : ∀ h, ∃ h', hid_close h = (h', Return ()) ∧ closed h';
  closed_write : ∀ h buffer, closed h → ∃ e, hid_write h buffer = (h, Raise e);
  closed_close : ∀ h, closed h → hid_close h = (h, Return ());
}.

(** The call ends by raising what the handle's write raised: the write is
    the only call made on the handle, which is left as it was, and the lock
    is free afterwards. *)
Definition refused {H A : Type} `{!Hid H} (c : Controller H)
    (o : outcome H A) : Prop :=
  ∃ e buffer,
    hid_write (_hiddevice c) buffer = (_hiddevice c, Raise e)
    ∧ o = Some (mkController (_hiddevice c) false
                  (calls c ++ [CallWrite buffer]),
                Raise e).

(** A controller on an open device with one reply, and the same after
    [__del__]. *)
Definition on_open_device : Controller Device :=
  mkController (mkDevice true (Return 16) [Return [0; RUN]]) false [].

Definition on_released_device : Controller Device :=
  mkController (mkDevice false (Return 16) [Return [0; RUN]]) false [CallClose].

(** ** Construction and finalisation (lines 107-116) *)

(** One entry of [hid.enumerate(...)]: a dict of which [__init__] reads the
    key ["path"] only, which every entry has. *)
Record descriptor : Type := mkDescriptor {
  path : string;
}.

(** What [__init__] uses of the [hid] package besides the handle's write,
    read and close: [hid.enumerate(vendor_id, product_id)], [hid.device()],
    and the handle's [open_path] and [set_nonblocking]. *)
Class HidModule (H : Type) : Type := {
  hid_enumerate : Z → Z → result (list descriptor);
  hid_device : result H;
  hid_open_path : H → string → H * result ();
  hid_set_nonblocking : H → Z → H * result ();
}.

(** [l[i]] for any integer index: a negative index counts from the end, and
    an index outside [-len(l), len(l)) raises. *)
Definition getitem_at {A : Type} (l : list A) (i : Z) : result A :=
  let i := if decide (i < 0) then i + Z.of_nat (length l) else i in
  if decide (i < 0 ∨ Z.of_nat (length l) ≤ i) then Raise IndexError
  else match l !! Z.to_nat i with
       | Some x => Return x
       | None => Raise IndexError
       end.

Module Lifetime.

(** The attributes of the object when [__init__] returns or raises. *)
Inductive instance (H : Type) : Type :=
  | NoAttributes
  | OnlyDevice (_hiddevice : H)
  | Constructed (c : Controller H).
Arguments NoAttributes {H}.
Arguments OnlyDevice {H} _.
Arguments Constructed {H} _.

Section lifetime.
Context {H : Type}.

(** [__init__]: the calls on the handle recorded in [calls] are those of
    write, read and close, so a new controller starts with none; a new
    [threading.Lock] is not held. *)
Definition __init__ `{!HidModule H} (index : Z) : instance H * result () :=
  match hid_enumerate VENDORID PIDRUN with
  | Raise e => (NoAttributes, Raise e)
  | Return devices =>
      match hid_device with
      | Raise e => (NoAttributes, Raise e)
      | Return h =>
          match getitem_at devices index with
          | Raise e => (OnlyDevice h, Raise e)
          | Return d =>
              let '(h, opened) := hid_open_path h (path d) in
              match opened with
              | Raise e => (OnlyDevice h, Raise e)
              | Return _ =>
                  let '(h, set) := hid_set_nonblocking h 0 in
                  match set with
                  | Raise e => (OnlyDevice h, Raise e)
                  | Return _ =>
                      (Constructed (mkController h false []), Return ())
                  end
              end
          end
      end
  end.

(** [__del__] on an object in any of these states: [close] is called when
    the attribute [_hiddevice] exists. *)
Definition __del__ `{!Hid H} (o : instance H) : instance H * result () :=
  match o with
  | NoAttributes => (NoAttributes, Return ())
  | OnlyDevice h =>
      let '(h, r) := hid_close h in (OnlyDevice h, r)
  | Constructed c =>
      let '(h, r) := hid_close (_hiddevice c) in
      (Constructed (called c h CallClose), r)
  end.

(** Whether the attribute [_hiddevice] exists. *)
Definition has_device (o : instance H) : bool :=
  match o with
  | NoAttributes => false
  | OnlyDevice _ | Constructed _ => true
  end.

End lifetime.
End Lifetime.

(** Two enumerated devices, for the examples; the scripted handle accepts
    every path and mode. *)
Definition two_devices : list descriptor :=
  [mkDescriptor "usb-1"; mkDescriptor "usb-2"].

#[global] Instance scripted_module : HidModule Scripted := {
  hid_enumerate vendor_id product_id :=
    if decide (vendor_id = VENDORID ∧ product_id = PIDRUN)
    then Return two_devices else Return [];
  hid_device := Return (mkScripted (Return 16) [] 0);
  hid_open_path h p := (h, Return ());
  hid_set_nonblocking h mode := (h, Return ());
}.

(** ** Valid packed BCD *)

(** Both nibbles of the byte are decimal digits. *)
Definition valid_bcd (b : Z) : Prop :=
  0 ≤ b `mod` 16 ≤ 9 ∧ 0 ≤ b `div` 16 ≤ 9.

(** * Properties *)

(** ** Frame construction *)

Example frame_default : frame GETSERIAL 0 16 =
  Return [0; 0x19; 0; 0; 0; 0; 0; 0; 0; 0; 0; 0; 0; 0; 0; 0].
Proof. reflexivity. Qed.

Example frame_two : frame GETSERIAL 0 2 = Raise IndexError.
Proof. reflexivity. Qed.

Example frame_negative : frame GETSERIAL 0 (-4) = Raise IndexError.
Proof. reflexivity. Qed.

Lemma list_repeat_length (x n : Z) : length (list_repeat x n) = Z.to_nat n.
Proof. apply length_replicate. Qed.

(** From three bytes on, both assignments are in range. *)
Lemma frame_Return (command param maxLength : Z) :
  3 ≤ maxLength →
  frame command param maxLength =
    Return (0 :: command :: param :: replicate (Z.to_nat maxLength - 3) 0).
Proof.
  intros Hlen. unfold frame, list_repeat.
  replace (Z.to_nat maxLength) with (S (S (S (Z.to_nat maxLength - 3)))) at 1 by lia.
  reflexivity.
Qed.

(** Below three bytes one of the two assignments is out of range. *)
Lemma frame_Raise (command param maxLength : Z) :
  maxLength < 3 → frame command param maxLength = Raise IndexError.
Proof.
  intros Hlen. unfold frame, list_repeat.
  destruct (Z.to_nat maxLength) as [|[|[|n]]] eqn:E; try reflexivity; lia.
Qed.

(** C1: for every command, parameter and length of at least 3, the buffer
    built by sendCommand has exactly the requested length, holds zero at
    offset 0, the command at offset 1, the parameter at offset 2 and zero at
    every later offset. *)
Theorem frame_layout (command param maxLength : Z) :
  3 ≤ maxLength →
  ∃ buffer : list Z,
    frame command param maxLength = Return buffer
    ∧ Z.of_nat (length buffer) = maxLength
    ∧ buffer !! 0%nat = Some 0
    ∧ buffer !! 1%nat = Some command
    ∧ buffer !! 2%nat = Some param
    ∧ ∀ i : nat, (3 ≤ i < length buffer)%nat → buffer !! i = Some 0.
Proof.
  intros Hlen. eexists. split; [by apply frame_Return|].
  repeat split.
  - cbn [length]. rewrite length_replicate. lia.
  - intros i [Hlo Hhi]. cbn [length] in Hhi. rewrite length_replicate in Hhi.
    destruct i as [|[|[|i]]]; try lia. cbn [lookup list_lookup].
    apply lookup_replicate_2. lia.
Qed.

Lemma frame_layout_witness :
  3 ≤ 16 ∧
  ∃ buffer : list Z,
    frame SETDISK DSKPOS2 16 = Return buffer
    ∧ Z.of_nat (length buffer) = 16
    ∧ buffer !! 0%nat = Some 0
    ∧ buffer !! 1%nat = Some SETDISK
    ∧ buffer !! 2%nat = Some DSKPOS2
    ∧ ∀ i : nat, (3 ≤ i < length buffer)%nat → buffer !! i = Some 0.
Proof. split; [lia | apply (frame_layout SETDISK DSKPOS2 16); lia]. Defined.

(** ** One transaction, run alone *)

Section transaction_facts.
Context {H : Type} `{!Hid H}.
Implicit Types (c : Controller H) (h : H).

Lemma sendCommand_blocked c command param maxLength timeoutMs :
  _lock c = true → sendCommand c command param maxLength timeoutMs = None.
Proof. intros Hl. unfold sendCommand, acquire. by rewrite Hl. Qed.

Lemma sendCommand_not_blocked c command param maxLength timeoutMs :
  _lock c = false → is_Some (sendCommand c command param maxLength timeoutMs).
Proof.
  intros Hl. unfold sendCommand, acquire. rewrite Hl. cbn.
  by destruct (transaction _ _ _ _ _).
Qed.

(** The frame cannot be built: nothing is called on the handle. *)
Lemma sendCommand_frame_Raise c command param maxLength timeoutMs e :
  _lock c = false →
  frame command param maxLength = Raise e →
  sendCommand c command param maxLength timeoutMs = Some (c, Raise e).
Proof.
  intros Hl Hf. unfold sendCommand, acquire, transaction. rewrite Hl, Hf. cbn.
  destruct c as [h l k]; cbn in *. by subst.
Qed.

(** The write raises: the read is not reached. *)
Lemma sendCommand_write_Raise c command param maxLength timeoutMs buffer h e :
  _lock c = false →
  frame command param maxLength = Return buffer →
  hid_write (_hiddevice c) buffer = (h, Raise e) →
  sendCommand c command param maxLength timeoutMs =
    Some (mkController h false (calls c ++ [CallWrite buffer]), Raise e).
Proof.
  intros Hl Hf Hw. unfold sendCommand, acquire, transaction.
  rewrite Hl, Hf. cbn. by rewrite Hw.
Qed.

(** The write returns: the read follows and its outcome is the call's. *)
Lemma sendCommand_write_Return c command param maxLength timeoutMs
    buffer h1 written h2 answer :
  _lock c = false →
  frame command param maxLength = Return buffer →
  hid_write (_hiddevice c) buffer = (h1, Return written) →
  hid_read h1 maxLength timeoutMs = (h2, answer) →
  sendCommand c command param maxLength timeoutMs =
    Some (mkController h2 false
            (calls c ++ [CallWrite buffer; CallRead maxLength timeoutMs]),
          answer).
Proof.
  intros Hl Hf Hw Hr. unfold sendCommand, acquire, transaction.
  rewrite Hl, Hf. cbn. rewrite Hw. cbn. rewrite Hr. unfold called, release. cbn.
  by rewrite <- app_assoc.
Qed.

(** Whenever the call returns or raises, the lock is free again. *)
Lemma sendCommand_releases c command param maxLength timeoutMs c' answer :
  sendCommand c command param maxLength timeoutMs = Some (c', answer) →
  _lock c' = false.
Proof.
  unfold sendCommand, acquire. destruct (_lock c); [done|]. cbn.
  destruct (transaction _ _ _ _ _) as [c1 a]. by intros [= <- _].
Qed.

(** C9: a call of sendCommand with maxLength below 3 that gets the lock
    raises IndexError from one of the two buffer assignments (offset 1 when
    the buffer has fewer than two elements, offset 2 when it has exactly
    two), calls nothing on the handle, and leaves the lock free. *)
Theorem sendCommand_short_frame c (command param maxLength timeoutMs : Z) :
  _lock c = false →
  maxLength < 3 →
  ∃ c',
    sendCommand c command param maxLength timeoutMs = Some (c', Raise IndexError)
    ∧ calls c' = calls c
    ∧ _hiddevice c' = _hiddevice c
    ∧ _lock c' = false
    ∧ ((maxLength < 2
        ∧ setitem (list_repeat 0x00 maxLength) 1 command = Raise IndexError)
       ∨ (maxLength = 2
          ∧ setitem (list_repeat 0x00 maxLength) 1 command = Return [0; command]
          ∧ setitem [0; command] 2 param = Raise IndexError)).
Proof.
  intros Hl Hlen. exists c. split.
  { apply sendCommand_frame_Raise; [done | by apply frame_Raise]. }
  repeat split; [done|].
  destruct (decide (maxLength = 2)) as [->|Hne].
  - right. by repeat split.
  - left. split; [lia|]. unfold setitem, list_repeat.
    rewrite length_replicate. case_decide; [lia | done].
Qed.

End transaction_facts.

Lemma sendCommand_short_frame_witness :
  _lock (scripted 16 [Return [0; RUN]]) = false ∧ 2 < 3 ∧
  ∃ c',
    sendCommand (scripted 16 [Return [0; RUN]]) GETONOFF 0 2 100
      = Some (c', Raise IndexError)
    ∧ calls c' = calls (scripted 16 [Return [0; RUN]])
    ∧ _hiddevice c' = _hiddevice (scripted 16 [Return [0; RUN]])
    ∧ _lock c' = false
    ∧ ((2 < 2
        ∧ setitem (list_repeat 0x00 2) 1 GETONOFF = Raise IndexError)
       ∨ (2 = 2
          ∧ setitem (list_repeat 0x00 2) 1 GETONOFF = Return [0; GETONOFF]
          ∧ setitem [0; GETONOFF] 2 0 = Raise IndexError)).
Proof.
  split; [reflexivity | split; [lia |]].
  apply (sendCommand_short_frame (scripted 16 [Return [0; RUN]]) GETONOFF 0 2 100);
    [reflexivity | lia].
Defined.

(** ** Decoding the answer *)

Section decoding.
Context {H : Type} `{!Hid H}.
Implicit Types (c : Controller H) (res : list Z).

Lemma returning_Return {A : Type} (o : outcome H (list Z)) (f : list Z → result A)
    c res :
  o = Some (c, Return res) → returning o f = Some (c, f res).
Proof. by intros ->. Qed.

Lemma returning_Raise {A : Type} (o : outcome H (list Z)) (f : list Z → result A)
    c e :
  o = Some (c, Raise e) → returning o f = Some (c, Raise e).
Proof. by intros ->. Qed.

Lemma returning_None {A : Type} (f : list Z → result A) :
  returning (H:=H) None f = None.
Proof. done. Qed.

Lemma getitem_Some res (i : nat) (x : Z) :
  res !! i = Some x → getitem res i = Return x.
Proof. unfold getitem. by intros ->. Qed.

Lemma getitem_short res (i : nat) :
  (length res ≤ i)%nat → getitem res i = Raise IndexError.
Proof. intros Hlen. unfold getitem. by rewrite lookup_ge_None_2. Qed.

Lemma decimal_from_shift (i : nat) (digits : list Z) :
  decimal_from i digits = 10 ^ Z.of_nat i * decimal digits.
Proof.
  unfold decimal. revert i. induction digits as [|d digits IH]; intros i; cbn.
  - lia.
  - rewrite (IH (S i)), (IH 1%nat).
    rewrite Nat2Z.inj_succ, Z.pow_succ_r by lia.
    change (10 ^ Z.of_nat 1) with 10. change (10 ^ 0) with 1. lia.
Qed.

Lemma decimal_cons (d : Z) (digits : list Z) :
  decimal (d :: digits) = d + 10 * decimal digits.
Proof.
  unfold decimal at 1. cbn. rewrite (decimal_from_shift 1).
  change (10 ^ Z.of_nat 1) with 10. change (10 ^ 0) with 1. lia.
Qed.

(** When every digit is a decimal digit, the digits of the number are the
    digits it was made of. *)
Lemma decimal_digit (digits : list Z) (i : nat) (d : Z) :
  Forall (λ x, 0 ≤ x ≤ 9) digits →
  digits !! i = Some d →
  (decimal digits `div` 10 ^ Z.of_nat i) `mod` 10 = d.
Proof.
  intros Hall. revert i. induction Hall as [|x digits Hx Hall IH]; intros i Hi.
  - done.
  - rewrite decimal_cons. destruct i as [|i]; cbn in Hi.
    + injection Hi as ->. change (10 ^ Z.of_nat 0) with 1.
      rewrite Z.div_1_r. rewrite (Z.mul_comm 10), Z_mod_plus_full.
      apply Z.mod_small. lia.
    + rewrite Nat2Z.inj_succ, Z.pow_succ_r by lia.
      rewrite <- Z.div_div by lia.
      replace ((x + 10 * decimal digits) `div` 10) with (decimal digits).
      { by apply IH. }
      rewrite Z.add_comm, (Z.mul_comm 10), Z.div_add_l by lia.
      rewrite (Z.div_small x 10) by lia. lia.
Qed.

Example bcd_1234 : decimal (bcd_digits [0x34; 0x12; 0x00; 0x00]) = 1234.
Proof. reflexivity. Qed.

Lemma serial_number_decimal (b0 b1 b2 b3 b4 : Z) (rest : list Z) :
  serial_number (b0 :: b1 :: b2 :: b3 :: b4 :: rest)
    = Return (decimal (bcd_digits [b1; b2; b3; b4])).
Proof.
  unfold serial_number. cbn. f_equal.
  repeat match goal with
  | |- context [10 ^ Z.of_nat ?n] =>
      let v := eval vm_compute in (10 ^ Z.of_nat n) in
      change (10 ^ Z.of_nat n) with v
  end.
  lia.
Qed.

(** C2: for every response of at least five bytes, getSerialNumber returns
    the sum of digit_i * 10^i over the eight BCD digits of the bytes at
    offsets 1 to 4, offset 1 holding the two least significant digits and
    offset 4 the two most significant; bytes 0x34, 0x12, 0, 0 at offsets 1 to
    4 give 1234 and four zero bytes give 0. *)
Theorem getSerialNumber_bcd c c' res :
  sendCommand c GETSERIAL 0 16 100 = Some (c', Return res) →
  (5 ≤ length res)%nat →
  ∃ b1 b2 b3 b4 : Z,
    res !! 1%nat = Some b1 ∧ res !! 2%nat = Some b2
    ∧ res !! 3%nat = Some b3 ∧ res !! 4%nat = Some b4
    ∧ getSerialNumber c = Some (c', Return (decimal (bcd_digits [b1; b2; b3; b4])))
    ∧ (b1 = 0x34 → b2 = 0x12 → b3 = 0x00 → b4 = 0x00 →
       getSerialNumber c = Some (c', Return 1234))
    ∧ (b1 = 0x00 → b2 = 0x00 → b3 = 0x00 → b4 = 0x00 →
       getSerialNumber c = Some (c', Return 0)).
Proof.
  intros Hsend Hlen.
  destruct res as [|b0 [|b1 [|b2 [|b3 [|b4 rest]]]]]; cbn in Hlen; try lia.
  exists b1, b2, b3, b4. repeat split.
  - unfold getSerialNumber. rewrite (returning_Return _ _ _ _ Hsend).
    by rewrite serial_number_decimal.
  - intros -> -> -> ->. unfold getSerialNumber.
    by rewrite (returning_Return _ _ _ _ Hsend).
  - intros -> -> -> ->. unfold getSerialNumber.
    by rewrite (returning_Return _ _ _ _ Hsend).
Qed.

(** C3: for every response of at least nine bytes, getFullStat returns the
    bytes at offsets 1 to 3 as the version triple and the bytes at offsets 4
    to 8 as onOff, door, disk, filter and cal, in that order; bytes
    1, 2, 3, 0x0F, 0x01, 0x02, 0x03, 0x01 at offsets 1 to 8 give version
    (1, 2, 3), onOff 0x0F, door 0x01, disk 0x02, filter 0x03, cal 0x01. *)
Theorem getFullStat_fields c c' res :
  sendCommand c FULLSTAT 0 16 100 = Some (c', Return res) →
  (9 ≤ length res)%nat →
  ∃ b1 b2 b3 b4 b5 b6 b7 b8 : Z,
    res !! 1%nat = Some b1 ∧ res !! 2%nat = Some b2 ∧ res !! 3%nat = Some b3
    ∧ res !! 4%nat = Some b4 ∧ res !! 5%nat = Some b5 ∧ res !! 6%nat = Some b6
    ∧ res !! 7%nat = Some b7 ∧ res !! 8%nat = Some b8
    ∧ getFullStat c = Some (c', Return
        {| version := (b1, b2, b3); onOff := b4; door := b5; disk := b6;
           filt := b7; cal := b8 |})
    ∧ (b1 = 1 → b2 = 2 → b3 = 3 → b4 = 0x0F → b5 = 0x01 → b6 = 0x02 →
       b7 = 0x03 → b8 = 0x01 →
       getFullStat c = Some (c', Return
        {| version := (1, 2, 3); onOff := 0x0F; door := 0x01; disk := 0x02;
           filt := 0x03; cal := 0x01 |})).
Proof.
  intros Hsend Hlen.
  destruct res as [|b0 [|b1 [|b2 [|b3 [|b4 [|b5 [|b6 [|b7 [|b8 rest]]]]]]]]];
    cbn in Hlen; try lia.
  exists b1, b2, b3, b4, b5, b6, b7, b8.
  assert (getFullStat c = Some (c', Return (mkFullStat (b1, b2, b3) b4 b5 b6 b7 b8)))
    as Hget.
  { unfold getFullStat. by rewrite (returning_Return _ _ _ _ Hsend). }
  repeat split; [done|]. by intros -> -> -> -> -> -> -> ->.
Qed.

(** *** Answers that are too short *)

Lemma status_byte_short res :
  (length res < 2)%nat → status_byte res = Raise IndexError.
Proof. intros Hlen. apply getitem_short. lia. Qed.

Lemma version_triple_short res :
  (length res < 4)%nat → version_triple res = Raise IndexError.
Proof.
  intros Hlen. unfold version_triple.
  destruct res as [|b0 [|b1 [|b2 [|b3 rest]]]]; cbn in *; try done; lia.
Qed.

Lemma serial_number_short res :
  (length res < 5)%nat → serial_number res = Raise IndexError.
Proof.
  intros Hlen. unfold serial_number. by rewrite (getitem_short res 4) by lia.
Qed.

Lemma full_stat_short res :
  (length res < 9)%nat → full_stat res = Raise IndexError.
Proof.
  intros Hlen. unfold full_stat.
  destruct res as [|b0 [|b1 [|b2 [|b3 [|b4 [|b5 [|b6 [|b7 [|b8 rest]]]]]]]]];
    cbn in *; try done; lia.
Qed.

(** C7, as the code has it: no accessor checks the length of the answer
    before it indexes it.  Given an answer shorter than the last offset it
    reads, a get accessor raises IndexError, the error of the out-of-range
    list index itself, and returns no value: fewer than 2 bytes for the
    status accessors, fewer than 4 for getVersion, fewer than 5 for
    getSerialNumber, fewer than 9 for getFullStat; in particular getFullStat
    on a 1-byte answer raises IndexError. *)
Theorem short_response_raises c c' res :
  (sendCommand c FULLSTAT 0 16 100 = Some (c', Return res) →
   (length res < 9)%nat → getFullStat c = Some (c', Raise IndexError))
  ∧ (sendCommand c FULLSTAT 0 16 100 = Some (c', Return res) →
     length res = 1%nat → getFullStat c = Some (c', Raise IndexError))
  ∧ (sendCommand c GETSERIAL 0 16 100 = Some (c', Return res) →
     (length res < 5)%nat → getSerialNumber c = Some (c', Raise IndexError))
  ∧ (sendCommand c GETVERSION 0 16 100 = Some (c', Return res) →
     (length res < 4)%nat → getVersion c = Some (c', Raise IndexError))
  ∧ (sendCommand c GETONOFF 0 16 100 = Some (c', Return res) →
     (length res < 2)%nat → getOnOff c = Some (c', Raise IndexError))
  ∧ (sendCommand c GETDISK 0 16 100 = Some (c', Return res) →
     (length res < 2)%nat → getDiskPosition c = Some (c', Raise IndexError))
  ∧ (sendCommand c GETFILT 0 16 100 = Some (c', Return res) →
     (length res < 2)%nat → getFilterPosition c = Some (c', Raise IndexError))
  ∧ (sendCommand c GETCAL 0 16 100 = Some (c', Return res) →
     (length res < 2)%nat → getCalibrationLED c = Some (c', Raise IndexError))
  ∧ (sendCommand c GETDOOR 0 16 100 = Some (c', Return res) →
     (length res < 2)%nat → getDoor c = Some (c', Raise IndexError)).
Proof.
  repeat split; intros Hsend Hlen.
  - unfold getFullStat. rewrite (returning_Return _ _ _ _ Hsend).
    by rewrite full_stat_short.
  - unfold getFullStat. rewrite (returning_Return _ _ _ _ Hsend).
    by rewrite full_stat_short by lia.
  - unfold getSerialNumber. rewrite (returning_Return _ _ _ _ Hsend).
    by rewrite serial_number_short.
  - unfold getVersion. rewrite (returning_Return _ _ _ _ Hsend).
    by rewrite version_triple_short.
  - unfold getOnOff. rewrite (returning_Return _ _ _ _ Hsend).
    by rewrite status_byte_short.
  - unfold getDiskPosition. rewrite (returning_Return _ _ _ _ Hsend).
    by rewrite status_byte_short.
  - unfold getFilterPosition. rewrite (returning_Return _ _ _ _ Hsend).
    by rewrite status_byte_short.
  - unfold getCalibrationLED. rewrite (returning_Return _ _ _ _ Hsend).
    by rewrite status_byte_short.
  - unfold getDoor. rewrite (returning_Return _ _ _ _ Hsend).
    by rewrite status_byte_short.
Qed.

(** C10: the five set accessors return None whatever bytes the answer holds,
    an empty answer included, while each of the eight get accessors raises
    IndexError on an answer of fewer than two bytes. *)
Theorem set_discards_get_indexes c c' res :
  (sendCommand c SETONOFF RUN 16 100 = Some (c', Return res) →
   switchOn c = Some (c', Return ()))
  ∧ (sendCommand c SETONOFF SLEEP 16 100 = Some (c', Return res) →
     switchOff c = Some (c', Return ()))
  ∧ (∀ newDiskPosition,
       sendCommand c SETDISK newDiskPosition 16 100 = Some (c', Return res) →
       setDiskPosition c newDiskPosition = Some (c', Return ()))
  ∧ (∀ filterPosition,
       sendCommand c SETFILT filterPosition 16 100 = Some (c', Return res) →
       setFilterPosition c filterPosition = Some (c', Return ()))
  ∧ (∀ calLED,
       sendCommand c SETCAL calLED 16 100 = Some (c', Return res) →
       setCalibrationLED c calLED = Some (c', Return ()))
  ∧ ((length res < 2)%nat →
     (sendCommand c GETONOFF 0 16 100 = Some (c', Return res) →
      getOnOff c = Some (c', Raise IndexError))
     ∧ (sendCommand c GETDISK 0 16 100 = Some (c', Return res) →
        getDiskPosition c = Some (c', Raise IndexError))
     ∧ (sendCommand c GETFILT 0 16 100 = Some (c', Return res) →
        getFilterPosition c = Some (c', Raise IndexError))
     ∧ (sendCommand c GETCAL 0 16 100 = Some (c', Return res) →
        getCalibrationLED c = Some (c', Raise IndexError))
     ∧ (sendCommand c GETDOOR 0 16 100 = Some (c', Return res) →
        getDoor c = Some (c', Raise IndexError))
     ∧ (sendCommand c GETSERIAL 0 16 100 = Some (c', Return res) →
        getSerialNumber c = Some (c', Raise IndexError))
     ∧ (sendCommand c FULLSTAT 0 16 100 = Some (c', Return res) →
        getFullStat c = Some (c', Raise IndexError))
     ∧ (sendCommand c GETVERSION 0 16 100 = Some (c', Return res) →
        getVersion c = Some (c', Raise IndexError))).
Proof.
  split_and!; try (intros Hlen; split_and!).
  - intros Hsend. unfold switchOn. by rewrite (returning_Return _ _ _ _ Hsend).
  - intros Hsend. unfold switchOff. by rewrite (returning_Return _ _ _ _ Hsend).
  - intros p Hsend. unfold setDiskPosition.
    by rewrite (returning_Return _ _ _ _ Hsend).
  - intros p Hsend. unfold setFilterPosition.
    by rewrite (returning_Return _ _ _ _ Hsend).
  - intros p Hsend. unfold setCalibrationLED.
    by rewrite (returning_Return _ _ _ _ Hsend).
  - intros Hsend. unfold getOnOff. rewrite (returning_Return _ _ _ _ Hsend).
    by rewrite status_byte_short.
  - intros Hsend. unfold getDiskPosition. rewrite (returning_Return _ _ _ _ Hsend).
    by rewrite status_byte_short.
  - intros Hsend. unfold getFilterPosition. rewrite (returning_Return _ _ _ _ Hsend).
    by rewrite status_byte_short.
  - intros Hsend. unfold getCalibrationLED. rewrite (returning_Return _ _ _ _ Hsend).
    by rewrite status_byte_short.
  - intros Hsend. unfold getDoor. rewrite (returning_Return _ _ _ _ Hsend).
    by rewrite status_byte_short.
  - intros Hsend. unfold getSerialNumber. rewrite (returning_Return _ _ _ _ Hsend).
    by rewrite serial_number_short by lia.
  - intros Hsend. unfold getFullStat. rewrite (returning_Return _ _ _ _ Hsend).
    by rewrite full_stat_short by lia.
  - intros Hsend. unfold getVersion. rewrite (returning_Return _ _ _ _ Hsend).
    by rewrite version_triple_short by lia.
Qed.

End decoding.

Lemma getSerialNumber_bcd_witness :
  sendCommand (scripted 16 [Return reply_serial_1234]) GETSERIAL 0 16 100
    = Some (answered 16 [] GETSERIAL 0, Return reply_serial_1234)
  ∧ (5 ≤ length reply_serial_1234)%nat
  ∧ ∃ b1 b2 b3 b4 : Z,
    reply_serial_1234 !! 1%nat = Some b1 ∧ reply_serial_1234 !! 2%nat = Some b2
    ∧ reply_serial_1234 !! 3%nat = Some b3 ∧ reply_serial_1234 !! 4%nat = Some b4
    ∧ getSerialNumber (scripted 16 [Return reply_serial_1234])
      = Some (answered 16 [] GETSERIAL 0,
              Return (decimal (bcd_digits [b1; b2; b3; b4])))
    ∧ (b1 = 0x34 → b2 = 0x12 → b3 = 0x00 → b4 = 0x00 →
       getSerialNumber (scripted 16 [Return reply_serial_1234])
       = Some (answered 16 [] GETSERIAL 0, Return 1234))
    ∧ (b1 = 0x00 → b2 = 0x00 → b3 = 0x00 → b4 = 0x00 →
       getSerialNumber (scripted 16 [Return reply_serial_1234])
       = Some (answered 16 [] GETSERIAL 0, Return 0)).
Proof.
  split; [reflexivity | split; [vm_compute; lia |]].
  apply (getSerialNumber_bcd (scripted 16 [Return reply_serial_1234])
           (answered 16 [] GETSERIAL 0) reply_serial_1234);
    [reflexivity | vm_compute; lia].
Defined.

Lemma getFullStat_fields_witness :
  sendCommand (scripted 16 [Return reply_full_stat]) FULLSTAT 0 16 100
    = Some (answered 16 [] FULLSTAT 0, Return reply_full_stat)
  ∧ (9 ≤ length reply_full_stat)%nat
  ∧ ∃ b1 b2 b3 b4 b5 b6 b7 b8 : Z,
    reply_full_stat !! 1%nat = Some b1 ∧ reply_full_stat !! 2%nat = Some b2
    ∧ reply_full_stat !! 3%nat = Some b3 ∧ reply_full_stat !! 4%nat = Some b4
    ∧ reply_full_stat !! 5%nat = Some b5 ∧ reply_full_stat !! 6%nat = Some b6
    ∧ reply_full_stat !! 7%nat = Some b7 ∧ reply_full_stat !! 8%nat = Some b8
    ∧ getFullStat (scripted 16 [Return reply_full_stat])
      = Some (answered 16 [] FULLSTAT 0, Return
        {| version := (b1, b2, b3); onOff := b4; door := b5; disk := b6;
           filt := b7; cal := b8 |})
    ∧ (b1 = 1 → b2 = 2 → b3 = 3 → b4 = 0x0F → b5 = 0x01 → b6 = 0x02 →
       b7 = 0x03 → b8 = 0x01 →
       getFullStat (scripted 16 [Return reply_full_stat])
       = Some (answered 16 [] FULLSTAT 0, Return
        {| version := (1, 2, 3); onOff := 0x0F; door := 0x01; disk := 0x02;
           filt := 0x03; cal := 0x01 |})).
Proof.
  split; [reflexivity | split; [vm_compute; lia |]].
  apply (getFullStat_fields (scripted 16 [Return reply_full_stat])
           (answered 16 [] FULLSTAT 0) reply_full_stat);
    [reflexivity | vm_compute; lia].
Defined.

(** C7, as stated, fails: getFullStat on a 1-byte answer does fail, but with
    the IndexError of the out-of-range read itself: the first element it
    reads is at offset 1, past the end of the answer, and nothing checked
    the length before. *)
Lemma short_response_is_index_error :
  getFullStat (scripted 16 [Return [0]])
    = Some (answered 16 [] FULLSTAT 0, Raise IndexError)
  ∧ (length [0] ≤ 1)%nat
  ∧ getitem [0] 1 = Raise IndexError.
Proof. split_and!; [reflexivity | cbn; lia | reflexivity]. Qed.

Lemma short_response_raises_witness :
  sendCommand (scripted 16 [Return [0]]) FULLSTAT 0 16 100
    = Some (answered 16 [] FULLSTAT 0, Return [0])
  ∧ length [0] = 1%nat
  ∧ getFullStat (scripted 16 [Return [0]])
    = Some (answered 16 [] FULLSTAT 0, Raise IndexError).
Proof.
  split; [reflexivity | split; [reflexivity |]].
  apply (proj1 (proj2 (short_response_raises (scripted 16 [Return [0]])
                         (answered 16 [] FULLSTAT 0) [0])));
    reflexivity.
Defined.

Lemma set_discards_get_indexes_witness :
  sendCommand (scripted 16 []) SETONOFF RUN 16 100
    = Some (answered 16 [] SETONOFF RUN, Return [])
  ∧ switchOn (scripted 16 []) = Some (answered 16 [] SETONOFF RUN, Return ()).
Proof.
  split; [reflexivity |].
  apply (proj1 (set_discards_get_indexes (scripted 16 [])
                  (answered 16 [] SETONOFF RUN) []));
    reflexivity.
Defined.

(** ** What sendCommand makes of the handle's write and read *)

Section handle_outcomes.
Context {H : Type} `{!Hid H}.
Implicit Types (c : Controller H) (h : H).

(** C5, as the code has it: when sendCommand gets the lock, builds its frame
    and the write returns, its outcome is the outcome of the handle's read:
    the bytes read, however few and with no length check or timeout error of
    its own, or the exception the read raised.  Either way the lock is free
    afterwards and a following sendCommand is not blocked. *)
Theorem sendCommand_read_outcome c (command param maxLength timeoutMs : Z)
    (buffer : list Z) h1 (written : Z) h2 (answer : result (list Z)) :
  _lock c = false →
  frame command param maxLength = Return buffer →
  hid_write (_hiddevice c) buffer = (h1, Return written) →
  hid_read h1 maxLength timeoutMs = (h2, answer) →
  ∃ c',
    sendCommand c command param maxLength timeoutMs = Some (c', answer)
    ∧ _hiddevice c' = h2
    ∧ _lock c' = false
    ∧ ∀ command' param' maxLength' timeoutMs',
        is_Some (sendCommand c' command' param' maxLength' timeoutMs').
Proof.
  intros Hl Hf Hw Hr. eexists. split.
  { by eapply sendCommand_write_Return. }
  repeat split. intros. by apply sendCommand_not_blocked.
Qed.

(** C8, as the code has it: the value the handle's write returns is never
    inspected, so after any returned count, a failure code or a short count
    included, the read is made and its outcome is the call's; only a write
    that raises ends the call before the read, with that exception and with
    the lock free. *)
Theorem sendCommand_write_outcome c (command param maxLength timeoutMs : Z)
    (buffer : list Z) :
  _lock c = false →
  frame command param maxLength = Return buffer →
  (∀ h e,
     hid_write (_hiddevice c) buffer = (h, Raise e) →
     sendCommand c command param maxLength timeoutMs
       = Some (mkController h false (calls c ++ [CallWrite buffer]), Raise e))
  ∧ (∀ h1 (written : Z) h2 answer,
       hid_write (_hiddevice c) buffer = (h1, Return written) →
       hid_read h1 maxLength timeoutMs = (h2, answer) →
       sendCommand c command param maxLength timeoutMs
         = Some (mkController h2 false
                   (calls c ++ [CallWrite buffer; CallRead maxLength timeoutMs]),
                 answer)).
Proof.
  intros Hl Hf. split.
  - intros h e Hw. by eapply sendCommand_write_Raise.
  - intros h1 written h2 answer Hw Hr. by eapply sendCommand_write_Return.
Qed.

End handle_outcomes.

(** A read that times out gives no bytes; the call returns them. *)
Example timed_out_read :
  sendCommand (scripted 16 []) GETONOFF 0 16 100
    = Some (answered 16 [] GETONOFF 0, Return []).
Proof. reflexivity. Qed.

(** C5, as stated, fails: the read delivers none of the 16 bytes asked for
    (the script has no reply left, so its read times out), and sendCommand
    does not fail: it returns the empty answer. *)
Lemma read_timeout_is_no_failure :
  hid_read (mkScripted (Return 16) [] 0) 16 100
    = (mkScripted (Return 16) [] 0, Return [])
  ∧ sendCommand (scripted 16 []) GETONOFF 0 16 100
    = Some (answered 16 [] GETONOFF 0, Return [])
  ∧ ¬ fails (sendCommand (scripted 16 []) GETONOFF 0 16 100).
Proof.
  split; [reflexivity | split; [reflexivity |]].
  intros (c & e & Hfail). discriminate Hfail.
Qed.

Lemma sendCommand_read_outcome_witness :
  _lock (scripted 16 []) = false
  ∧ frame GETONOFF 0 16 = Return (0 :: GETONOFF :: 0 :: replicate 13 0)
  ∧ hid_write (_hiddevice (scripted 16 [])) (0 :: GETONOFF :: 0 :: replicate 13 0)
    = (mkScripted (Return 16) [] 0, Return 16)
  ∧ hid_read (mkScripted (Return 16) [] 0) 16 100
    = (mkScripted (Return 16) [] 0, Return [])
  ∧ ∃ c',
    sendCommand (scripted 16 []) GETONOFF 0 16 100 = Some (c', Return [])
    ∧ _hiddevice c' = mkScripted (Return 16) [] 0
    ∧ _lock c' = false
    ∧ ∀ command' param' maxLength' timeoutMs',
        is_Some (sendCommand c' command' param' maxLength' timeoutMs').
Proof.
  split; [reflexivity | split; [reflexivity | split; [reflexivity |
    split; [reflexivity |]]]].
  apply (sendCommand_read_outcome (scripted 16 []) GETONOFF 0 16 100
           (0 :: GETONOFF :: 0 :: replicate 13 0)
           (mkScripted (Return 16) [] 0) 16 (mkScripted (Return 16) [] 0)
           (Return []));
    reflexivity.
Defined.

(** C8, as stated, fails: the write reports failure (-1), or 1 byte written
    of the 16 of the frame, and sendCommand does not fail: it goes on to the
    read and returns its answer. *)
Lemma failed_write_is_no_failure :
  hid_write (_hiddevice (scripted (-1) [Return [0; RUN]]))
      (0 :: GETONOFF :: 0 :: replicate 13 0)
    = (mkScripted (Return (-1)) [Return [0; RUN]] 0, Return (-1))
  ∧ sendCommand (scripted (-1) [Return [0; RUN]]) GETONOFF 0 16 100
    = Some (answered (-1) [] GETONOFF 0, Return [0; RUN])
  ∧ ¬ fails (sendCommand (scripted (-1) [Return [0; RUN]]) GETONOFF 0 16 100)
  ∧ sendCommand (scripted 1 [Return [0; RUN]]) GETONOFF 0 16 100
    = Some (answered 1 [] GETONOFF 0, Return [0; RUN])
  ∧ ¬ fails (sendCommand (scripted 1 [Return [0; RUN]]) GETONOFF 0 16 100)
  ∧ last (calls (answered (-1) [] GETONOFF 0)) = Some (CallRead 16 100).
Proof.
  split_and!; try reflexivity; intros (c & e & Hfail); discriminate Hfail.
Qed.

Lemma sendCommand_write_outcome_witness :
  _lock (scripted (-1) [Return [0; RUN]]) = false
  ∧ frame GETONOFF 0 16 = Return (0 :: GETONOFF :: 0 :: replicate 13 0)
  ∧ hid_write (_hiddevice (scripted (-1) [Return [0; RUN]]))
        (0 :: GETONOFF :: 0 :: replicate 13 0)
    = (mkScripted (Return (-1)) [Return [0; RUN]] 0, Return (-1))
  ∧ hid_read (mkScripted (Return (-1)) [Return [0; RUN]] 0) 16 100
    = (mkScripted (Return (-1)) [] 0, Return [0; RUN])
  ∧ sendCommand (scripted (-1) [Return [0; RUN]]) GETONOFF 0 16 100
    = Some (mkController (mkScripted (Return (-1)) [] 0) false
              ([] ++ [CallWrite (0 :: GETONOFF :: 0 :: replicate 13 0);
                      CallRead 16 100]),
            Return [0; RUN]).
Proof.
  split; [reflexivity | split; [reflexivity | split; [reflexivity |
    split; [reflexivity |]]]].
  apply (proj2 (sendCommand_write_outcome (scripted (-1) [Return [0; RUN]])
                  GETONOFF 0 16 100 (0 :: GETONOFF :: 0 :: replicate 13 0)
                  eq_refl eq_refl)
           (mkScripted (Return (-1)) [Return [0; RUN]] 0) (-1)
           (mkScripted (Return (-1)) [] 0) (Return [0; RUN]));
    reflexivity.
Defined.

(** ** After the handle has been released *)

Section released.
Context {H : Type} `{!Hid H}.
Implicit Types (c : Controller H) (h : H).

Lemma del_calls_close c :
  __del__ c = Some (called c (hid_close (_hiddevice c)).1 CallClose,
                    (hid_close (_hiddevice c)).2).
Proof. unfold __del__. by destruct (hid_close _). Qed.

Lemma refused_returning {A : Type} c (o : outcome H (list Z))
    (f : list Z → result A) :
  refused c o → refused c (returning o f).
Proof.
  intros (e & buffer & Hw & ->). exists e, buffer. by split.
Qed.

Lemma sendCommand_refused (closed : H → Prop) c
    (command param maxLength timeoutMs : Z) :
  closes_like_hid closed →
  _lock c = false → closed (_hiddevice c) → 3 ≤ maxLength →
  refused c (sendCommand c command param maxLength timeoutMs).
Proof.
  intros Hlaw Hl Hc Hlen.
  destruct (closed_write closed Hlaw (_hiddevice c)
              (0 :: command :: param :: replicate (Z.to_nat maxLength - 3) 0) Hc)
    as [e Hw].
  exists e, (0 :: command :: param :: replicate (Z.to_nat maxLength - 3) 0).
  split; [done|].
  by apply sendCommand_write_Raise; [|apply frame_Return|].
Qed.

(** C6, as the code has it: the Controller keeps no record of having been
    released and raises no error of its own for it; what follows a release
    is the doing of the handle, which closes as the hid package's device
    does.  With the lock free, __del__ closes the handle and returns; run
    again it calls close again, which does nothing and returns.  On the
    released controller every sendCommand with maxLength of at least 3 and
    every accessor still takes the lock, builds the frame and calls the
    handle's write, and fails with what that write raises: no read is made,
    the handle is left as it was and the lock is free.  A sendCommand with
    maxLength below 3 fails with IndexError before the handle is reached, as
    it does before the release. *)
Theorem released_controller_refused (closed : H → Prop) c c1 (r : result ()) :
  closes_like_hid closed →
  _lock c = false →
  __del__ c = Some (c1, r) →
  r = Return ()
  ∧ closed (_hiddevice c1)
  ∧ _lock c1 = false
  ∧ calls c1 = calls c ++ [CallClose]
  ∧ __del__ c1
    = Some (mkController (_hiddevice c1) false (calls c1 ++ [CallClose]),
            Return ())
  ∧ (∀ command param maxLength timeoutMs,
       3 ≤ maxLength →
       refused c1 (sendCommand c1 command param maxLength timeoutMs))
  ∧ (∀ command param maxLength timeoutMs,
       maxLength < 3 →
       sendCommand c1 command param maxLength timeoutMs
         = Some (c1, Raise IndexError))
  ∧ refused c1 (switchOn c1)
  ∧ refused c1 (switchOff c1)
  ∧ (∀ newDiskPosition, refused c1 (setDiskPosition c1 newDiskPosition))
  ∧ (∀ filterPosition, refused c1 (setFilterPosition c1 filterPosition))
  ∧ (∀ calLED, refused c1 (setCalibrationLED c1 calLED))
  ∧ refused c1 (getOnOff c1)
  ∧ refused c1 (getDiskPosition c1)
  ∧ refused c1 (getFilterPosition c1)
  ∧ refused c1 (getCalibrationLED c1)
  ∧ refused c1 (getDoor c1)
  ∧ refused c1 (getSerialNumber c1)
  ∧ refused c1 (getFullStat c1)
  ∧ refused c1 (getVersion c1).
Proof.
  intros Hlaw Hl. rewrite del_calls_close.
  destruct (close_closes closed Hlaw (_hiddevice c)) as (h' & Hclose & Hc).
  rewrite Hclose. cbn. intros [= <- <-].
  assert (∀ command param,
            refused (called c h' CallClose)
              (sendCommand (called c h' CallClose) command param 16 100))
    as Hsend.
  { intros command param. by apply (sendCommand_refused closed); [..|lia]. }
  split_and!; try done.
  - rewrite del_calls_close. cbn.
    rewrite (closed_close closed Hlaw h' Hc). unfold called. cbn.
    by rewrite Hl.
  - intros command param maxLength timeoutMs Hlen.
    by apply (sendCommand_refused closed).
  - intros command param maxLength timeoutMs Hlen.
    apply sendCommand_frame_Raise; [done | by apply frame_Raise].
  - apply refused_returning, Hsend.
  - apply refused_returning, Hsend.
  - intros p. apply refused_returning, Hsend.
  - intros p. apply refused_returning, Hsend.
  - intros p. apply refused_returning, Hsend.
  - apply refused_returning, Hsend.
  - apply refused_returning, Hsend.
  - apply refused_returning, Hsend.
  - apply refused_returning, Hsend.
  - apply refused_returning, Hsend.
  - apply refused_returning, Hsend.
  - apply refused_returning, Hsend.
  - apply refused_returning, Hsend.
Qed.

End released.

(** The device closes as the condition says. *)
Lemma device_closes_like_hid : closes_like_hid (λ h : Device, dev_open h = false).
Proof.
  split.
  - intros h. by eexists.
  - intros [o w rs] buffer Ho. cbn in Ho. subst o. by eexists.
  - intros [o w rs] Ho. cbn in Ho. by subst o.
Qed.

(** C6, as stated, fails: the released controller does not answer with an
    error of its own for the closed session.  A sendCommand with maxLength 2
    fails with the IndexError of the frame, just as on the open controller
    and without the handle being reached; and getOnOff fails only through
    the handle's write, which the Controller still calls and which raises
    the handle's own error. *)
Lemma released_controller_has_no_error_of_its_own :
  __del__ on_open_device = Some (on_released_device, Return ())
  ∧ sendCommand on_released_device GETONOFF 0 2 100
    = Some (on_released_device, Raise IndexError)
  ∧ sendCommand on_open_device GETONOFF 0 2 100
    = Some (on_open_device, Raise IndexError)
  ∧ getOnOff on_released_device
    = Some (mkController (_hiddevice on_released_device) false
              [CallClose; CallWrite (0 :: GETONOFF :: 0 :: replicate 13 0)],
            Raise (HidError "not open")).
Proof. split_and!; reflexivity. Qed.

Lemma released_controller_refused_witness :
  closes_like_hid (λ h : Device, dev_open h = false)
  ∧ _lock on_open_device = false
  ∧ __del__ on_open_device = Some (on_released_device, Return ())
  ∧ dev_open (_hiddevice on_released_device) = false
  ∧ __del__ on_released_device
    = Some (mkController (_hiddevice on_released_device) false
              (calls on_released_device ++ [CallClose]),
            Return ())
  ∧ refused on_released_device (getOnOff on_released_device).
Proof.
  split; [exact device_closes_like_hid | split; [reflexivity |
    split; [reflexivity |]]].
  assert (__del__ on_open_device = Some (on_released_device, Return ()))
    as Hdel by reflexivity.
  pose proof (released_controller_refused (λ h : Device, dev_open h = false)
                on_open_device on_released_device (Return ())
                device_closes_like_hid eq_refl Hdel) as Hall.
  destruct Hall as (_ & Hclosed & _ & _ & Hagain & _ & _ & _ & _ & _ & _ & _
                    & Hget & _).
  split; [exact Hclosed | split; [exact Hagain | exact Hget]].
Defined.

(** ** Threads: one transaction at a time *)

Section serial.
Import Threads.

(** A record of whole transactions does not end in a write that returned. *)
Lemma whole_last (tr : list event) t buffer :
  whole tr → last tr ≠ Some (mkEvent t (CallWrite buffer) true).
Proof.
  intros [| tr' t' b' Hw | tr' t' b' m to ok Hw]; [done | |].
  - rewrite last_snoc. by intros [= _ _].
  - change [mkEvent t' (CallWrite b') true; mkEvent t' (CallRead m to) ok]
      with ([mkEvent t' (CallWrite b') true] ++ [mkEvent t' (CallRead m to) ok]).
    rewrite app_assoc, last_snoc. by intros [=].
Qed.

Lemma last_lookup_length {A : Type} (l : list A) (i : nat) (x : A) :
  l !! i = Some x → S i = length l → last l = Some x.
Proof.
  intros Hi Hlen. rewrite last_lookup. by replace (pred (length l)) with i by lia.
Qed.

Lemma whole_write_then_own_read (tr : list event) :
  whole tr → write_then_own_read tr.
Proof.
  induction 1 as [| tr t b Hw IH | tr t b m to ok Hw IH];
    intros i t' b' Hi Hlt.
  - done.
  - rewrite length_app in Hlt. cbn in Hlt.
    assert (i < length tr)%nat as Hi' by lia.
    rewrite lookup_app_l in Hi by done.
    destruct (decide (S i = length tr)) as [Heq|Hne].
    { by destruct (whole_last tr t' b' Hw (last_lookup_length _ _ _ Hi Heq)). }
    destruct (IH i t' b' Hi) as (m' & to' & ok' & Hn); [lia|].
    exists m', to', ok'. rewrite lookup_app_l by lia. done.
  - rewrite length_app in Hlt. cbn in Hlt.
    destruct (decide (i < length tr)%nat) as [Hi'|Hi'].
    + rewrite lookup_app_l in Hi by done.
      destruct (decide (S i = length tr)) as [Heq|Hne].
      { by destruct (whole_last tr t' b' Hw (last_lookup_length _ _ _ Hi Heq)). }
      destruct (IH i t' b' Hi) as (m' & to' & ok' & Hn); [lia|].
      exists m', to', ok'. rewrite lookup_app_l by lia. done.
    + assert (i = length tr) as -> by lia.
      rewrite lookup_app_r in Hi by lia. rewrite Nat.sub_diag in Hi.
      injection Hi as <- <-.
      exists m, to, ok. rewrite lookup_app_r by lia.
      by replace (S (length tr) - length tr)%nat with 1%nat by lia.
Qed.

Lemma whole_read_after_own_write (tr : list event) :
  whole tr → read_after_own_write tr.
Proof.
  induction 1 as [| tr t b Hw IH | tr t b m to ok Hw IH];
    intros i t' m' to' ok' Hi.
  - done.
  - destruct (decide (i < length tr)%nat) as [Hi'|Hi'].
    + rewrite lookup_app_l in Hi by done.
      destruct (IH i t' m' to' ok' Hi) as (j & b' & -> & Hj).
      exists j, b'. split; [done|]. rewrite lookup_app_l; [done|].
      by eapply lookup_lt_Some.
    + rewrite lookup_app_r in Hi by lia.
      destruct (i - length tr)%nat as [|k]; cbn in Hi; [|by destruct k].
      by injection Hi.
  - destruct (decide (i < length tr)%nat) as [Hi'|Hi'].
    + rewrite lookup_app_l in Hi by done.
      destruct (IH i t' m' to' ok' Hi) as (j & b' & -> & Hj).
      exists j, b'. split; [done|]. rewrite lookup_app_l; [done|].
      by eapply lookup_lt_Some.
    + rewrite lookup_app_r in Hi by lia.
      destruct (i - length tr)%nat as [|[|k]] eqn:Hk; cbn in Hi;
        [by injection Hi | | by destruct k].
      injection Hi as <- <- <- <-.
      exists (length tr), b. split; [lia|].
      rewrite lookup_app_r by lia. by rewrite Nat.sub_diag.
Qed.

Lemma inflight_write_then_own_read (tr : list event) (e : event) :
  whole tr → write_then_own_read (tr ++ [e]).
Proof.
  intros Hw i t b Hi Hlt. rewrite length_app in Hlt. cbn in Hlt.
  assert (i < length tr)%nat as Hi' by lia.
  rewrite lookup_app_l in Hi by done.
  destruct (decide (S i = length tr)) as [Heq|Hne].
  { by destruct (whole_last tr t b Hw (last_lookup_length _ _ _ Hi Heq)). }
  destruct (whole_write_then_own_read tr Hw i t b Hi) as (m & to & ok & Hn); [lia|].
  exists m, to, ok. rewrite lookup_app_l by lia. done.
Qed.

Lemma inflight_read_after_own_write (tr : list event) t buffer :
  whole tr → read_after_own_write (tr ++ [mkEvent t (CallWrite buffer) true]).
Proof.
  intros Hw i t' m to ok Hi.
  destruct (decide (i < length tr)%nat) as [Hi'|Hi'].
  - rewrite lookup_app_l in Hi by done.
    destruct (whole_read_after_own_write tr Hw i t' m to ok Hi) as (j & b' & -> & Hj).
    exists j, b'. split; [done|]. rewrite lookup_app_l; [done|].
    by eapply lookup_lt_Some.
  - rewrite lookup_app_r in Hi by lia.
    destruct (i - length tr)%nat as [|k]; cbn in Hi; [|by destruct k].
    by injection Hi.
Qed.

(** *** Updating one thread *)

Lemma exclusive_others (ps : list pc) t p :
  exclusive ps → ps !! t = Some p → inside p = true →
  ∀ j q, ps !! j = Some q → inside q = true → j = t.
Proof. intros Hex Ht Hp j q Hj Hq. by eapply Hex. Qed.

(** A thread that was inside may move on or leave. *)
Lemma exclusive_insert (ps : list pc) t p p' :
  exclusive ps → ps !! t = Some p → (inside p' = true → inside p = true) →
  exclusive (<[t := p']> ps).
Proof.
  intros Hex Ht Himp i j q1 q2 Hi Hj H1 H2.
  apply list_lookup_insert_Some in Hi as [(<- & <- & _) | (Hne1 & Hi)];
    apply list_lookup_insert_Some in Hj as [(<- & <- & _) | (Hne2 & Hj)];
    try done.
  - symmetry. eapply (exclusive_others ps t p); eauto.
  - eapply (exclusive_others ps t p); eauto.
  - by eapply Hex.
Qed.

(** When nobody is inside, one thread may enter. *)
Lemma exclusive_enter (ps : list pc) t p' :
  (∀ i q, ps !! i = Some q → inside q = false) →
  exclusive (<[t := p']> ps).
Proof.
  intros Hout i j q1 q2 Hi Hj H1 H2.
  apply list_lookup_insert_Some in Hi as [(<- & <- & _) | (Hne1 & Hi)];
    apply list_lookup_insert_Some in Hj as [(<- & <- & _) | (Hne2 & Hj)];
    try done.
  - apply Hout in Hj. congruence.
  - apply Hout in Hi. congruence.
  - apply Hout in Hi. congruence.
Qed.

Lemma no_reader_insert (ps : list pc) t p' :
  no_reader ps → (∀ m to, p' ≠ Reading m to) → no_reader (<[t := p']> ps).
Proof.
  intros Hno Hp' i m to Hi.
  apply list_lookup_insert_Some in Hi as [(<- & -> & _) | (Hne & Hi)].
  - by eapply Hp'.
  - by eapply Hno.
Qed.

(** The thread inside is not reading, so nobody is. *)
Lemma no_reader_inside (ps : list pc) t p :
  exclusive ps → ps !! t = Some p → inside p = true →
  (∀ m to, p ≠ Reading m to) → no_reader ps.
Proof.
  intros Hex Ht Hp Hnr i m to Hi.
  assert (i = t) as -> by (eapply (exclusive_others ps t p); eauto).
  rewrite Ht in Hi. injection Hi as ->. by eapply Hnr.
Qed.

(** *** The invariant *)

Section invariant.
Context {H : Type} `{!Hid H}.
Implicit Types (s : system H).

Lemma invariant_init (h : H) (n : nat) : invariant (init h n).
Proof.
  assert (∀ i p, replicate n Idle !! i = Some p → p = Idle) as Hidle.
  { intros i p Hi. by apply lookup_replicate in Hi as [-> _]. }
  split_and!.
  - intros i j p q Hi Hj Hp. apply Hidle in Hi as ->. done.
  - intros i p Hi Hp. apply Hidle in Hi as ->. done.
  - left. split; [constructor|]. intros i m to Hi. by apply Hidle in Hi.
Qed.

Lemma invariant_step s s' : invariant s → step s s' → invariant s'.
Proof.
  intros (Hex & Hlock & Htr) Hstep.
  destruct Hstep as
    [ s t command param maxLength timeoutMs Ht
    | s t command param maxLength timeoutMs Ht Hfree
    | s t command param maxLength timeoutMs Ht
    | s t buffer maxLength timeoutMs h result Ht Hw
    | s t maxLength timeoutMs h answer Ht Hr
    | s t answer Ht ]; unfold invariant; cbn.
  - (* call *)
    split_and!.
    + by eapply exclusive_insert.
    + intros i p Hi Hp.
      apply list_lookup_insert_Some in Hi as [(<- & <- & _) | (Hne & Hi)]; [done|].
      by eapply Hlock.
    + destruct Htr as [[Hwh Hno] | (i & m & to & tr & b & Hi & Htrace & Hwh)].
      * left. split; [done|]. by apply no_reader_insert.
      * right. exists i, m, to, tr, b. split_and!; try done.
        rewrite list_lookup_insert_ne; [done|]. intros ->. congruence.
  - (* acquire *)
    assert (∀ i q, threads s !! i = Some q → inside q = false) as Hout.
    { intros i q Hi. destruct (inside q) eqn:Hq; [|done].
      specialize (Hlock i q Hi Hq). congruence. }
    split_and!.
    + by apply exclusive_enter.
    + done.
    + destruct Htr as [[Hwh Hno] | (i & m & to & tr & b & Hi & Htrace & Hwh)].
      * left. split; [done|]. by apply no_reader_insert.
      * by apply Hout in Hi.
  - (* build *)
    assert (no_reader (threads s)) as Hno by (by eapply no_reader_inside).
    destruct Htr as [[Hwh _] | (i & m & to & tr & b & Hi & _)];
      [|by destruct (Hno i m to)].
    split_and!.
    + eapply exclusive_insert; [done..|]. done.
    + intros i p Hi Hp.
      apply list_lookup_insert_Some in Hi as [(<- & <- & _) | (Hne & Hi)];
        [by eapply Hlock | by eapply Hlock].
    + left. split; [done|]. apply no_reader_insert; [done|].
      by destruct (frame _ _ _).
  - (* write *)
    assert (no_reader (threads s)) as Hno by (by eapply no_reader_inside).
    destruct Htr as [[Hwh _] | (i & m & to & tr & b & Hi & _)];
      [|by destruct (Hno i m to)].
    split_and!.
    + eapply exclusive_insert; [done..|]. done.
    + intros i p Hi Hp.
      apply list_lookup_insert_Some in Hi as [(<- & <- & _) | (Hne & Hi)];
        [by eapply Hlock | by eapply Hlock].
    + destruct result as [n|e]; cbn.
      * right. exists t, maxLength, timeoutMs, (trace s), buffer.
        split_and!; try done. apply list_lookup_insert_eq.
        by eapply lookup_lt_Some.
      * left. split; [by constructor|]. by apply no_reader_insert.
  - (* read *)
    destruct Htr as [[_ Hno] | (i & m & to & tr & b & Hi & Htrace & Hwh)];
      [by destruct (Hno t maxLength timeoutMs)|].
    assert (i = t) as -> by (eapply (exclusive_others (threads s) t); eauto).
    split_and!.
    + eapply exclusive_insert; [done..|]. done.
    + intros i p Hi' Hp.
      apply list_lookup_insert_Some in Hi' as [(<- & <- & _) | (Hne & Hi')];
        [by eapply Hlock | by eapply Hlock].
    + left. split.
      * rewrite Htrace, <- app_assoc. cbn. by constructor.
      * intros j m' to' Hj.
        apply list_lookup_insert_Some in Hj as [(<- & [=] & _) | (Hne & Hj)].
        apply Hne. symmetry. eapply (exclusive_others (threads s) t); eauto.
  - (* release *)
    assert (no_reader (threads s)) as Hno by (by eapply no_reader_inside).
    destruct Htr as [[Hwh _] | (i & m & to & tr & b & Hi & _)];
      [|by destruct (Hno i m to)].
    split_and!.
    + eapply exclusive_insert; [done..|]. done.
    + intros i p Hi Hp.
      apply list_lookup_insert_Some in Hi as [(<- & <- & _) | (Hne & Hi)]; [done|].
      destruct Hne. symmetry. eapply (exclusive_others (threads s) t); eauto.
    + left. split; [done|]. by apply no_reader_insert.
Qed.

Lemma invariant_reachable (h : H) (n : nat) s :
  rtc step (init h n) s → invariant s.
Proof.
  revert s. apply (rtc_ind_r invariant).
  - apply invariant_init.
  - intros s1 s2 _ Hstep Hinv. by eapply invariant_step.
Qed.

(** C4: whatever the threads do, at most one of them is between taking and
    releasing the lock, and the calls made on the handle never interleave:
    every write that returned is directly followed by the read of the same
    thread (or is the last call so far, its thread being about to read), and
    every read directly follows the returned write of its own thread. *)
Theorem transactions_never_interleave (h : H) (n : nat) s :
  rtc step (init h n) s →
  exclusive (threads s)
  ∧ (∀ i p, threads s !! i = Some p → inside p = true → lock s = true)
  ∧ write_then_own_read (trace s)
  ∧ read_after_own_write (trace s)
  ∧ (∀ t buffer,
       last (trace s) = Some (mkEvent t (CallWrite buffer) true) →
       ∃ maxLength timeoutMs,
         threads s !! t = Some (Reading maxLength timeoutMs)).
Proof.
  intros Hreach. destruct (invariant_reachable h n s Hreach) as (Hex & Hlock & Htr).
  split; [done|]. split; [done|].
  destruct Htr as [[Hwh Hno] | (i & m & to & tr & b & Hi & Htrace & Hwh)].
  - split_and!.
    + by apply whole_write_then_own_read.
    + by apply whole_read_after_own_write.
    + intros t b Hlast. by destruct (whole_last (trace s) t b).
  - rewrite Htrace. split_and!.
    + by apply inflight_write_then_own_read.
    + by apply inflight_read_after_own_write.
    + intros t b'. rewrite last_snoc. intros [= <- _]. by exists m, to.
Qed.

(** *** A thread on its own runs sendCommand *)

Lemma insert_back (ps : list pc) t p p' :
  ps !! t = Some p → <[t := p]> (<[t := p']> ps) = ps.
Proof.
  intros Ht. rewrite list_insert_insert_eq. by apply list_insert_id.
Qed.

(** X13: with the lock free, an idle thread can go through a whole
    transaction on its own; the handle ends in the state, and the thread
    gets the answer, that sendCommand computes for a controller on the same
    handle, and the calls recorded are the same write and read. *)
Lemma thread_transaction s t (command param maxLength timeoutMs : Z)
    (buffer : list Z) (h1 : H) (written : Z) (h2 : H) (answer : result (list Z)) :
  threads s !! t = Some Idle →
  lock s = false →
  frame command param maxLength = Return buffer →
  hid_write (handle s) buffer = (h1, Return written) →
  hid_read h1 maxLength timeoutMs = (h2, answer) →
  sendCommand (mkController (handle s) false []) command param maxLength timeoutMs
    = Some (mkController h2 false
              [CallWrite buffer; CallRead maxLength timeoutMs], answer)
  ∧ ∃ s1,
      rtc step s s1
      ∧ threads s1 !! t = Some (Leaving answer)
      ∧ step s1 (mkSystem h2 false (threads s)
                   (trace s ++ [mkEvent t (CallWrite buffer) true;
                                mkEvent t (CallRead maxLength timeoutMs)
                                  (returns answer)])).
Proof.
  intros Ht Hl Hf Hw Hr. split.
  { by rewrite (sendCommand_write_Return _ _ _ _ _ buffer h1 written h2 answer). }
  assert (t < length (threads s))%nat as Hlt by (by eapply lookup_lt_Some).
  eexists. split_and!.
  - eapply rtc_l.
    { by apply (step_call s t command param maxLength timeoutMs). }
    eapply rtc_l.
    { eapply (step_acquire _ t command param maxLength timeoutMs); [|done].
      by apply list_lookup_insert_eq. }
    eapply rtc_l.
    { eapply (step_build _ t command param maxLength timeoutMs).
      cbn. apply list_lookup_insert_eq. by rewrite length_insert. }
    eapply rtc_l.
    { eapply (step_write _ t buffer maxLength timeoutMs h1 (Return written)).
      - cbn. rewrite Hf. apply list_lookup_insert_eq. by rewrite !length_insert.
      - done. }
    eapply rtc_l.
    { eapply (step_read _ t maxLength timeoutMs h2 answer).
      - cbn. apply list_lookup_insert_eq. by rewrite !length_insert.
      - done. }
    apply rtc_refl.
  - cbn. apply list_lookup_insert_eq. by rewrite !length_insert.
  - cbn. rewrite !list_insert_insert_eq, <- app_assoc.
    match goal with
    | |- step ?s1 _ => pose proof (step_release s1 t answer) as Hstep
    end.
    cbn in Hstep. rewrite list_insert_insert_eq in Hstep.
    rewrite (list_insert_id (threads s) t Idle) in Hstep by done.
    apply Hstep. by apply list_lookup_insert_eq.
Qed.

End invariant.

End serial.

Lemma two_threads_run :
  rtc Threads.step (Threads.init (mkScripted (Return 16) [Return [0; RUN]] 0) 2)
    two_threads_later.
Proof.
  eapply rtc_l.
  { by apply (Threads.step_call _ 0%nat GETONOFF 0 16 100). }
  eapply rtc_l.
  { by apply (Threads.step_call _ 1%nat GETDOOR 0 16 100). }
  eapply rtc_l.
  { by apply (Threads.step_acquire _ 0%nat GETONOFF 0 16 100). }
  eapply rtc_l.
  { by apply (Threads.step_build _ 0%nat GETONOFF 0 16 100). }
  eapply rtc_l.
  { by eapply (Threads.step_write _ 0%nat _ 16 100). }
  eapply rtc_l.
  { by eapply (Threads.step_read _ 0%nat 16 100). }
  eapply rtc_l.
  { by eapply (Threads.step_release _ 0%nat). }
  eapply rtc_l.
  { by apply (Threads.step_acquire _ 1%nat GETDOOR 0 16 100). }
  eapply rtc_l.
  { by apply (Threads.step_build _ 1%nat GETDOOR 0 16 100). }
  eapply rtc_l.
  { by eapply (Threads.step_write _ 1%nat _ 16 100). }
  apply rtc_refl.
Qed.

Lemma transactions_never_interleave_witness :
  rtc Threads.step (Threads.init (mkScripted (Return 16) [Return [0; RUN]] 0) 2)
    two_threads_later
  ∧ Threads.exclusive (Threads.threads two_threads_later)
  ∧ (∀ i p, Threads.threads two_threads_later !! i = Some p →
       Threads.inside p = true → Threads.lock two_threads_later = true)
  ∧ Threads.write_then_own_read (Threads.trace two_threads_later)
  ∧ Threads.read_after_own_write (Threads.trace two_threads_later)
  ∧ (∀ t buffer,
       last (Threads.trace two_threads_later)
         = Some (Threads.mkEvent t (CallWrite buffer) true) →
       ∃ maxLength timeoutMs,
         Threads.threads two_threads_later !! t
           = Some (Threads.Reading maxLength timeoutMs)).
Proof.
  split; [exact two_threads_run |].
  exact (transactions_never_interleave _ 2 two_threads_later two_threads_run).
Defined.

(** * Further properties *)

(** ** What each accessor puts on the wire *)

Section accessors.
Context {H : Type} `{!Hid H}.
Implicit Types (c : Controller H) (h : H).

(** A method built on a 16-byte transaction, from the handle's point of
    view: the frame is written, 16 bytes are read with a 100 ms timeout, and
    the method's result is made from the answer. *)
Lemma returning_transaction {A : Type} c (command param : Z)
    (f : list Z → result A) h1 (written : Z) h2 (answer : result (list Z)) :
  _lock c = false →
  hid_write (_hiddevice c) (0 :: command :: param :: replicate 13 0)
    = (h1, Return written) →
  hid_read h1 16 100 = (h2, answer) →
  returning (sendCommand c command param 16 100) f
    = Some (mkController h2 false
              (calls c ++ [CallWrite (0 :: command :: param :: replicate 13 0);
                           CallRead 16 100]),
            answer ≫= f).
Proof.
  intros Hl Hw Hr.
  rewrite (sendCommand_write_Return c command param 16 100
             (0 :: command :: param :: replicate 13 0) h1 written h2 answer);
    try done.
Qed.

(** X1: with the lock free, each set accessor writes one 16-byte frame,
    0x21 with 0x0F for switchOn, 0x21 with 0x7F for switchOff, 0x23, 0x24 or
    0x25 with the argument for the disk position, the filter position and the
    calibration LED, then reads 16 bytes with a 100 ms timeout, returns None
    whatever was read, and leaves the lock free. *)
Theorem set_accessors_on_the_wire c (arg : Z) h1 (written : Z) h2 (res : list Z)
    (command param : Z) :
  _lock c = false →
  hid_write (_hiddevice c)
      [0; command; param; 0; 0; 0; 0; 0; 0; 0; 0; 0; 0; 0; 0; 0]
    = (h1, Return written) →
  hid_read h1 16 100 = (h2, Return res) →
  let c' := mkController h2 false
              (calls c ++ [CallWrite [0; command; param; 0; 0; 0; 0; 0; 0; 0;
                                      0; 0; 0; 0; 0; 0];
                           CallRead 16 100]) in
  (command = 0x21 → param = 0x0F → switchOn c = Some (c', Return ()))
  ∧ (command = 0x21 → param = 0x7F → switchOff c = Some (c', Return ()))
  ∧ (command = 0x23 → param = arg → setDiskPosition c arg = Some (c', Return ()))
  ∧ (command = 0x24 → param = arg → setFilterPosition c arg = Some (c', Return ()))
  ∧ (command = 0x25 → param = arg → setCalibrationLED c arg = Some (c', Return ())).
Proof.
  intros Hl Hw Hr c'. split_and!; intros -> ->.
  - unfold switchOn. by rewrite (returning_transaction c _ _ _ h1 written h2 _ Hl Hw Hr).
  - unfold switchOff. by rewrite (returning_transaction c _ _ _ h1 written h2 _ Hl Hw Hr).
  - unfold setDiskPosition. by rewrite (returning_transaction c _ _ _ h1 written h2 _ Hl Hw Hr).
  - unfold setFilterPosition. by rewrite (returning_transaction c _ _ _ h1 written h2 _ Hl Hw Hr).
  - unfold setCalibrationLED. by rewrite (returning_transaction c _ _ _ h1 written h2 _ Hl Hw Hr).
Qed.

(** X2: with the lock free, each status accessor writes the 16-byte frame of
    its command with parameter 0 (0x12 on/off, 0x14 disk, 0x15 filter, 0x16
    calibration LED, 0x13 door), reads 16 bytes with a 100 ms timeout, and
    returns the byte at offset 1 of an answer of two bytes or more. *)
Theorem status_accessors_on_the_wire c h1 (written : Z) h2
    (b0 b1 : Z) (rest : list Z) (command : Z) :
  _lock c = false →
  hid_write (_hiddevice c)
      [0; command; 0; 0; 0; 0; 0; 0; 0; 0; 0; 0; 0; 0; 0; 0]
    = (h1, Return written) →
  hid_read h1 16 100 = (h2, Return (b0 :: b1 :: rest)) →
  let c' := mkController h2 false
              (calls c ++ [CallWrite [0; command; 0; 0; 0; 0; 0; 0; 0; 0;
                                      0; 0; 0; 0; 0; 0];
                           CallRead 16 100]) in
  (command = 0x12 → getOnOff c = Some (c', Return b1))
  ∧ (command = 0x14 → getDiskPosition c = Some (c', Return b1))
  ∧ (command = 0x15 → getFilterPosition c = Some (c', Return b1))
  ∧ (command = 0x16 → getCalibrationLED c = Some (c', Return b1))
  ∧ (command = 0x13 → getDoor c = Some (c', Return b1)).
Proof.
  intros Hl Hw Hr c'. split_and!; intros ->.
  - unfold getOnOff. by rewrite (returning_transaction c _ _ _ h1 written h2 _ Hl Hw Hr).
  - unfold getDiskPosition. by rewrite (returning_transaction c _ _ _ h1 written h2 _ Hl Hw Hr).
  - unfold getFilterPosition. by rewrite (returning_transaction c _ _ _ h1 written h2 _ Hl Hw Hr).
  - unfold getCalibrationLED. by rewrite (returning_transaction c _ _ _ h1 written h2 _ Hl Hw Hr).
  - unfold getDoor. by rewrite (returning_transaction c _ _ _ h1 written h2 _ Hl Hw Hr).
Qed.

(** X3: with the lock free, getVersion writes a frame of sixteen zero bytes
    (command 0x00), reads 16 bytes with a 100 ms timeout, and returns the
    bytes at offsets 1, 2 and 3 of an answer of four bytes or more, as a
    triple in that order. *)
Theorem getVersion_on_the_wire c h1 (written : Z) h2
    (b0 b1 b2 b3 : Z) (rest : list Z) :
  _lock c = false →
  hid_write (_hiddevice c) (replicate 16 0) = (h1, Return written) →
  hid_read h1 16 100 = (h2, Return (b0 :: b1 :: b2 :: b3 :: rest)) →
  getVersion c
    = Some (mkController h2 false
              (calls c ++ [CallWrite (replicate 16 0); CallRead 16 100]),
            Return (b1, b2, b3)).
Proof.
  intros Hl Hw Hr. unfold getVersion. by rewrite (returning_transaction c _ _ _ h1 written h2 _ Hl Hw Hr).
Qed.

(** X4: with the lock free, getSerialNumber writes the frame of command 0x19
    and getFullStat the frame of command 0x1F, each with parameter 0 and 16
    bytes long, and each reads 16 bytes with a 100 ms timeout; what they
    return is made of the answer alone. *)
Theorem serial_and_full_stat_on_the_wire c h1 (written : Z) h2
    (res : list Z) (command : Z) :
  _lock c = false →
  hid_write (_hiddevice c)
      [0; command; 0; 0; 0; 0; 0; 0; 0; 0; 0; 0; 0; 0; 0; 0]
    = (h1, Return written) →
  hid_read h1 16 100 = (h2, Return res) →
  let c' := mkController h2 false
              (calls c ++ [CallWrite [0; command; 0; 0; 0; 0; 0; 0; 0; 0;
                                      0; 0; 0; 0; 0; 0];
                           CallRead 16 100]) in
  (command = 0x19 → getSerialNumber c = Some (c', serial_number res))
  ∧ (command = 0x1F → getFullStat c = Some (c', full_stat res)).
Proof.
  intros Hl Hw Hr c'. split_and!; intros ->.
  - unfold getSerialNumber. by rewrite (returning_transaction c _ _ _ h1 written h2 _ Hl Hw Hr).
  - unfold getFullStat. by rewrite (returning_transaction c _ _ _ h1 written h2 _ Hl Hw Hr).
Qed.

End accessors.

Lemma set_accessors_on_the_wire_witness :
  _lock (scripted 16 []) = false
  ∧ hid_write (_hiddevice (scripted 16 []))
        [0; 0x23; 2; 0; 0; 0; 0; 0; 0; 0; 0; 0; 0; 0; 0; 0]
    = (mkScripted (Return 16) [] 0, Return 16)
  ∧ hid_read (mkScripted (Return 16) [] 0) 16 100
    = (mkScripted (Return 16) [] 0, Return [])
  ∧ setDiskPosition (scripted 16 []) 2
    = Some (mkController (mkScripted (Return 16) [] 0) false
              (calls (scripted 16 [])
               ++ [CallWrite [0; 0x23; 2; 0; 0; 0; 0; 0; 0; 0; 0; 0; 0; 0; 0; 0];
                   CallRead 16 100]),
            Return ()).
Proof.
  split; [reflexivity | split; [reflexivity | split; [reflexivity |]]].
  apply (set_accessors_on_the_wire (scripted 16 []) 2
           (mkScripted (Return 16) [] 0) 16 (mkScripted (Return 16) [] 0) []
           0x23 2);
    reflexivity.
Defined.

Lemma status_accessors_on_the_wire_witness :
  _lock (scripted 16 [Return [0; DOORCLSD]]) = false
  ∧ hid_write (_hiddevice (scripted 16 [Return [0; DOORCLSD]]))
        [0; 0x13; 0; 0; 0; 0; 0; 0; 0; 0; 0; 0; 0; 0; 0; 0]
    = (mkScripted (Return 16) [Return [0; DOORCLSD]] 0, Return 16)
  ∧ hid_read (mkScripted (Return 16) [Return [0; DOORCLSD]] 0) 16 100
    = (mkScripted (Return 16) [] 0, Return [0; DOORCLSD])
  ∧ getDoor (scripted 16 [Return [0; DOORCLSD]])
    = Some (mkController (mkScripted (Return 16) [] 0) false
              (calls (scripted 16 [Return [0; DOORCLSD]])
               ++ [CallWrite [0; 0x13; 0; 0; 0; 0; 0; 0; 0; 0; 0; 0; 0; 0; 0; 0];
                   CallRead 16 100]),
            Return DOORCLSD).
Proof.
  split; [reflexivity | split; [reflexivity | split; [reflexivity |]]].
  apply (status_accessors_on_the_wire (scripted 16 [Return [0; DOORCLSD]])
           (mkScripted (Return 16) [Return [0; DOORCLSD]] 0) 16
           (mkScripted (Return 16) [] 0) 0 DOORCLSD [] 0x13);
    reflexivity.
Defined.

Lemma getVersion_on_the_wire_witness :
  _lock (scripted 16 [Return [0; 1; 2; 3]]) = false
  ∧ hid_write (_hiddevice (scripted 16 [Return [0; 1; 2; 3]])) (replicate 16 0)
    = (mkScripted (Return 16) [Return [0; 1; 2; 3]] 0, Return 16)
  ∧ hid_read (mkScripted (Return 16) [Return [0; 1; 2; 3]] 0) 16 100
    = (mkScripted (Return 16) [] 0, Return [0; 1; 2; 3])
  ∧ getVersion (scripted 16 [Return [0; 1; 2; 3]])
    = Some (mkController (mkScripted (Return 16) [] 0) false
              (calls (scripted 16 [Return [0; 1; 2; 3]])
               ++ [CallWrite (replicate 16 0); CallRead 16 100]),
            Return (1, 2, 3)).
Proof.
  split; [reflexivity | split; [reflexivity | split; [reflexivity |]]].
  apply (getVersion_on_the_wire (scripted 16 [Return [0; 1; 2; 3]])
           (mkScripted (Return 16) [Return [0; 1; 2; 3]] 0) 16
           (mkScripted (Return 16) [] 0) 0 1 2 3 []);
    reflexivity.
Defined.

Lemma serial_and_full_stat_on_the_wire_witness :
  _lock (scripted 16 [Return reply_serial_1234]) = false
  ∧ hid_write (_hiddevice (scripted 16 [Return reply_serial_1234]))
        [0; 0x19; 0; 0; 0; 0; 0; 0; 0; 0; 0; 0; 0; 0; 0; 0]
    = (mkScripted (Return 16) [Return reply_serial_1234] 0, Return 16)
  ∧ hid_read (mkScripted (Return 16) [Return reply_serial_1234] 0) 16 100
    = (mkScripted (Return 16) [] 0, Return reply_serial_1234)
  ∧ getSerialNumber (scripted 16 [Return reply_serial_1234])
    = Some (mkController (mkScripted (Return 16) [] 0) false
              (calls (scripted 16 [Return reply_serial_1234])
               ++ [CallWrite [0; 0x19; 0; 0; 0; 0; 0; 0; 0; 0; 0; 0; 0; 0; 0; 0];
                   CallRead 16 100]),
            serial_number reply_serial_1234).
Proof.
  split; [reflexivity | split; [reflexivity | split; [reflexivity |]]].
  apply (serial_and_full_stat_on_the_wire (scripted 16 [Return reply_serial_1234])
           (mkScripted (Return 16) [Return reply_serial_1234] 0) 16
           (mkScripted (Return 16) [] 0) reply_serial_1234 0x19);
    reflexivity.
Defined.

(** ** Failures pass through *)

Section passing_through.
Context {H : Type} `{!Hid H}.
Implicit Types (c : Controller H) (h : H).

(** X5: no accessor catches or converts anything: when its sendCommand call
    ends with an exception, be it raised by the handle's write or by its
    read, the accessor ends with the same exception and the same controller
    state; the set accessors, which ignore the answer, are no exception. *)
Theorem accessors_catch_nothing c c' (e : exn) (command param arg : Z) :
  sendCommand c command param 16 100 = Some (c', Raise e) →
  (command = SETONOFF → param = RUN → switchOn c = Some (c', Raise e))
  ∧ (command = SETONOFF → param = SLEEP → switchOff c = Some (c', Raise e))
  ∧ (command = SETDISK → param = arg →
     setDiskPosition c arg = Some (c', Raise e))
  ∧ (command = SETFILT → param = arg →
     setFilterPosition c arg = Some (c', Raise e))
  ∧ (command = SETCAL → param = arg →
     setCalibrationLED c arg = Some (c', Raise e))
  ∧ (command = GETONOFF → param = 0 → getOnOff c = Some (c', Raise e))
  ∧ (command = GETDISK → param = 0 → getDiskPosition c = Some (c', Raise e))
  ∧ (command = GETFILT → param = 0 → getFilterPosition c = Some (c', Raise e))
  ∧ (command = GETCAL → param = 0 → getCalibrationLED c = Some (c', Raise e))
  ∧ (command = GETDOOR → param = 0 → getDoor c = Some (c', Raise e))
  ∧ (command = GETSERIAL → param = 0 → getSerialNumber c = Some (c', Raise e))
  ∧ (command = FULLSTAT → param = 0 → getFullStat c = Some (c', Raise e))
  ∧ (command = GETVERSION → param = 0 → getVersion c = Some (c', Raise e)).
Proof.
  intros Hsend. split_and!; intros -> ->.
  - unfold switchOn. by rewrite Hsend.
  - unfold switchOff. by rewrite Hsend.
  - unfold setDiskPosition. by rewrite Hsend.
  - unfold setFilterPosition. by rewrite Hsend.
  - unfold setCalibrationLED. by rewrite Hsend.
  - unfold getOnOff. by rewrite Hsend.
  - unfold getDiskPosition. by rewrite Hsend.
  - unfold getFilterPosition. by rewrite Hsend.
  - unfold getCalibrationLED. by rewrite Hsend.
  - unfold getDoor. by rewrite Hsend.
  - unfold getSerialNumber. by rewrite Hsend.
  - unfold getFullStat. by rewrite Hsend.
  - unfold getVersion. by rewrite Hsend.
Qed.

(** X6: a sendCommand call that ends, by returning or by raising, found the
    lock free and leaves it free, and has called on the handle either
    nothing (the frame could not be built: maxLength below 3, IndexError),
    or the write alone (the write raised, and the call raises the same), or
    the write and then the read (whose outcome is the call's); it never
    calls close and never a second write or read. *)
Theorem sendCommand_calls c (command param maxLength timeoutMs : Z) c'
    (answer : result (list Z)) :
  sendCommand c command param maxLength timeoutMs = Some (c', answer) →
  _lock c = false
  ∧ _lock c' = false
  ∧ ((maxLength < 3 ∧ answer = Raise IndexError
      ∧ calls c' = calls c ∧ _hiddevice c' = _hiddevice c)
     ∨ (3 ≤ maxLength
        ∧ ∃ buffer,
            frame command param maxLength = Return buffer
            ∧ ((∃ e, hid_write (_hiddevice c) buffer = (_hiddevice c', Raise e)
                     ∧ answer = Raise e
                     ∧ calls c' = calls c ++ [CallWrite buffer])
               ∨ (∃ h1 (written : Z),
                     hid_write (_hiddevice c) buffer = (h1, Return written)
                     ∧ hid_read h1 maxLength timeoutMs = (_hiddevice c', answer)
                     ∧ calls c' = calls c ++ [CallWrite buffer;
                                              CallRead maxLength timeoutMs])))).
Proof.
  intros Hsend.
  destruct (_lock c) eqn:Hl.
  { by rewrite sendCommand_blocked in Hsend. }
  split; [done|]. split; [by eapply sendCommand_releases|].
  destruct (decide (maxLength < 3)) as [Hlt|Hge].
  - left. rewrite (sendCommand_frame_Raise c _ _ _ _ IndexError) in Hsend;
      [|done|by apply frame_Raise].
    by injection Hsend as <- <-.
  - right. split; [lia|]. eexists. split; [apply frame_Return; lia|].
    set (buffer := 0 :: command :: param :: replicate _ 0) in *.
    destruct (hid_write (_hiddevice c) buffer) as [h1 [written|e]] eqn:Hw.
    + right. destruct (hid_read h1 maxLength timeoutMs) as [h2 a] eqn:Hr.
      rewrite (sendCommand_write_Return c _ _ _ _ buffer h1 written h2 a)
        in Hsend; [|done|apply frame_Return; lia|done..].
      injection Hsend as <- <-. by exists h1, written.
    + left. rewrite (sendCommand_write_Raise c _ _ _ _ buffer h1 e) in Hsend;
        [|done|apply frame_Return; lia|done].
      injection Hsend as <- <-. by exists e.
Qed.

End passing_through.

Lemma accessors_catch_nothing_witness :
  sendCommand (scripted 16 [Raise (HidError "read error")]) GETDOOR 0 16 100
    = Some (answered 16 [] GETDOOR 0, Raise (HidError "read error"))
  ∧ getDoor (scripted 16 [Raise (HidError "read error")])
    = Some (answered 16 [] GETDOOR 0, Raise (HidError "read error")).
Proof.
  split; [reflexivity |].
  apply (accessors_catch_nothing (scripted 16 [Raise (HidError "read error")])
           (answered 16 [] GETDOOR 0) (HidError "read error") GETDOOR 0 0);
    reflexivity.
Defined.

Lemma sendCommand_calls_witness :
  sendCommand (scripted 16 [Return [0; RUN]]) GETONOFF 0 16 100
    = Some (answered 16 [] GETONOFF 0, Return [0; RUN])
  ∧ _lock (scripted 16 [Return [0; RUN]]) = false
  ∧ _lock (answered 16 [] GETONOFF 0) = false.
Proof.
  split; [reflexivity |].
  assert (sendCommand (scripted 16 [Return [0; RUN]]) GETONOFF 0 16 100
          = Some (answered 16 [] GETONOFF 0, Return [0; RUN])) as Hsend
    by reflexivity.
  split.
  - exact (proj1 (sendCommand_calls _ _ _ _ _ _ _ Hsend)).
  - exact (proj1 (proj2 (sendCommand_calls _ _ _ _ _ _ _ Hsend))).
Defined.

(** ** The serial number as a number *)

Lemma serial_number_sum (b0 b1 b2 b3 b4 : Z) (rest : list Z) :
  serial_number (b0 :: b1 :: b2 :: b3 :: b4 :: rest)
    = Return (b4 `div` 16 * 10000000 + b4 `mod` 16 * 1000000
              + b3 `div` 16 * 100000 + b3 `mod` 16 * 10000
              + b2 `div` 16 * 1000 + b2 `mod` 16 * 100
              + b1 `div` 16 * 10 + b1 `mod` 16).
Proof. reflexivity. Qed.

Lemma bcd_digits_valid (bytes : list Z) :
  Forall valid_bcd bytes → Forall (λ x, 0 ≤ x ≤ 9) (bcd_digits bytes).
Proof.
  induction 1 as [|b bytes [Hlo Hhi] _ IH]; [constructor|].
  unfold bcd_digits. cbn.
  constructor; [done|]. constructor; [done|]. exact IH.
Qed.

Lemma byte_of_nibbles (b b' : Z) :
  b `mod` 16 = b' `mod` 16 → b `div` 16 = b' `div` 16 → b = b'.
Proof.
  intros Hm Hd. rewrite (Z.div_mod b 16), (Z.div_mod b' 16) by lia. congruence.
Qed.

(** X7: when the bytes at offsets 1 to 4 are valid packed BCD, the serial
    number is between 0 and 99999999 and its decimal digits are the eight
    nibbles: the digit of weight 10^i is nibble i, counting from the low
    nibble of offset 1 up to the high nibble of offset 4. *)
Theorem serial_number_of_valid_bcd (b0 b1 b2 b3 b4 : Z) (rest : list Z) :
  valid_bcd b1 → valid_bcd b2 → valid_bcd b3 → valid_bcd b4 →
  ∃ n : Z,
    serial_number (b0 :: b1 :: b2 :: b3 :: b4 :: rest) = Return n
    ∧ 0 ≤ n ≤ 99999999
    ∧ ∀ (i : nat) (d : Z),
        [b1 `mod` 16; b1 `div` 16; b2 `mod` 16; b2 `div` 16;
         b3 `mod` 16; b3 `div` 16; b4 `mod` 16; b4 `div` 16] !! i = Some d →
        (n `div` 10 ^ Z.of_nat i) `mod` 10 = d.
Proof.
  intros H1 H2 H3 H4. eexists. split; [apply serial_number_decimal|]. split.
  - assert (decimal (bcd_digits [b1; b2; b3; b4])
            = b4 `div` 16 * 10000000 + b4 `mod` 16 * 1000000
              + b3 `div` 16 * 100000 + b3 `mod` 16 * 10000
              + b2 `div` 16 * 1000 + b2 `mod` 16 * 100
              + b1 `div` 16 * 10 + b1 `mod` 16) as ->.
    { pose proof (serial_number_decimal b0 b1 b2 b3 b4 rest) as Hd.
      rewrite serial_number_sum in Hd. injection Hd as Hd.
      symmetry. exact Hd. }
    destruct H1, H2, H3, H4. lia.
  - intros i d Hi. apply decimal_digit; [|done].
    apply bcd_digits_valid. repeat (constructor; [assumption|]). constructor.
Qed.

(** X8: on valid packed BCD the decoding loses nothing: two answers with
    valid BCD bytes at offsets 1 to 4 and the same serial number have the
    same four bytes. *)
Theorem serial_number_injective (b0 b1 b2 b3 b4 : Z) (rest : list Z)
    (b0' b1' b2' b3' b4' : Z) (rest' : list Z) :
  Forall valid_bcd [b1; b2; b3; b4] →
  Forall valid_bcd [b1'; b2'; b3'; b4'] →
  serial_number (b0 :: b1 :: b2 :: b3 :: b4 :: rest)
    = serial_number (b0' :: b1' :: b2' :: b3' :: b4' :: rest') →
  b1 = b1' ∧ b2 = b2' ∧ b3 = b3' ∧ b4 = b4'.
Proof.
  intros Hv Hv' Heq. rewrite !serial_number_decimal in Heq.
  injection Heq as Heq.
  change (decimal (bcd_digits [b1; b2; b3; b4])
          = decimal (bcd_digits [b1'; b2'; b3'; b4'])) in Heq.
  assert (∀ (i : nat) d d',
            bcd_digits [b1; b2; b3; b4] !! i = Some d →
            bcd_digits [b1'; b2'; b3'; b4'] !! i = Some d' → d = d') as Hdig.
  { intros i d d' Hi Hi'.
    rewrite <- (decimal_digit _ i d (bcd_digits_valid _ Hv) Hi).
    rewrite <- (decimal_digit _ i d' (bcd_digits_valid _ Hv') Hi').
    by rewrite Heq. }
  split_and!; apply byte_of_nibbles.
  - by apply (Hdig 0%nat).
  - by apply (Hdig 1%nat).
  - by apply (Hdig 2%nat).
  - by apply (Hdig 3%nat).
  - by apply (Hdig 4%nat).
  - by apply (Hdig 5%nat).
  - by apply (Hdig 6%nat).
  - by apply (Hdig 7%nat).
Qed.

(** X9: nibbles are not checked.  For any bytes 0..255 at offsets 1 to 4 the
    serial number is between 0 and 166666665, and a low nibble of ten reads
    like a carry into the high nibble: the byte 16x + 10 decodes like the
    byte 16(x + 1), so different answers can give the same serial number. *)
Theorem serial_number_unchecked (b0 b1 b2 b3 b4 : Z) (rest : list Z) :
  0 ≤ b1 ≤ 255 → 0 ≤ b2 ≤ 255 → 0 ≤ b3 ≤ 255 → 0 ≤ b4 ≤ 255 →
  (∃ n : Z,
     serial_number (b0 :: b1 :: b2 :: b3 :: b4 :: rest) = Return n
     ∧ 0 ≤ n ≤ 166666665)
  ∧ ∀ x : Z,
      serial_number (b0 :: 16 * x + 10 :: b2 :: b3 :: b4 :: rest)
        = serial_number (b0 :: 16 * (x + 1) :: b2 :: b3 :: b4 :: rest).
Proof.
  intros H1 H2 H3 H4. split.
  - eexists. split; [apply serial_number_sum|].
    pose proof (Z.mod_pos_bound b1 16). pose proof (Z.mod_pos_bound b2 16).
    pose proof (Z.mod_pos_bound b3 16). pose proof (Z.mod_pos_bound b4 16).
    assert (0 ≤ b1 `div` 16 ≤ 15).
    { pose proof (Z.div_pos b1 16). pose proof (Z.div_lt_upper_bound b1 16 16). lia. }
    assert (0 ≤ b2 `div` 16 ≤ 15).
    { pose proof (Z.div_pos b2 16). pose proof (Z.div_lt_upper_bound b2 16 16). lia. }
    assert (0 ≤ b3 `div` 16 ≤ 15).
    { pose proof (Z.div_pos b3 16). pose proof (Z.div_lt_upper_bound b3 16 16). lia. }
    assert (0 ≤ b4 `div` 16 ≤ 15).
    { pose proof (Z.div_pos b4 16). pose proof (Z.div_lt_upper_bound b4 16 16). lia. }
    lia.
  - intros x. rewrite !serial_number_sum. f_equal.
    replace ((16 * x + 10) `div` 16) with x
      by (apply (Z.div_unique _ 16 x 10); lia).
    replace ((16 * x + 10) `mod` 16) with 10
      by (apply (Z.mod_unique _ 16 x 10); lia).
    replace ((16 * (x + 1)) `div` 16) with (x + 1)
      by (apply (Z.div_unique _ 16 (x + 1) 0); lia).
    replace ((16 * (x + 1)) `mod` 16) with 0
      by (apply (Z.mod_unique _ 16 (x + 1) 0); lia).
    lia.
Qed.

Lemma serial_number_of_valid_bcd_witness :
  valid_bcd 0x34 ∧ valid_bcd 0x12 ∧ valid_bcd 0x00 ∧ valid_bcd 0x00
  ∧ ∃ n : Z,
    serial_number reply_serial_1234 = Return n
    ∧ 0 ≤ n ≤ 99999999
    ∧ ∀ (i : nat) (d : Z),
        [0x34 `mod` 16; 0x34 `div` 16; 0x12 `mod` 16; 0x12 `div` 16;
         0x00 `mod` 16; 0x00 `div` 16; 0x00 `mod` 16; 0x00 `div` 16] !! i
          = Some d →
        (n `div` 10 ^ Z.of_nat i) `mod` 10 = d.
Proof.
  assert (valid_bcd 0x34 ∧ valid_bcd 0x12 ∧ valid_bcd 0x00) as (V1 & V2 & V0).
  { unfold valid_bcd. vm_compute. intuition discriminate. }
  split; [exact V1 | split; [exact V2 | split; [exact V0 | split; [exact V0 |]]]].
  exact (serial_number_of_valid_bcd 0 0x34 0x12 0x00 0x00
           [0; 0; 0; 0; 0; 0; 0; 0; 0; 0; 0] V1 V2 V0 V0).
Defined.

Lemma serial_number_injective_witness :
  Forall valid_bcd [0x34; 0x12; 0x00; 0x00]
  ∧ serial_number [0; 0x34; 0x12; 0x00; 0x00]
    = serial_number [0xFF; 0x34; 0x12; 0x00; 0x00; 7]
  ∧ (0x34 = 0x34 ∧ 0x12 = 0x12 ∧ 0x00 = 0x00 ∧ 0x00 = 0x00).
Proof.
  assert (Forall valid_bcd [0x34; 0x12; 0x00; 0x00]) as V.
  { repeat constructor; vm_compute; intuition discriminate. }
  split; [exact V | split; [reflexivity |]].
  exact (serial_number_injective 0 0x34 0x12 0x00 0x00 []
           0xFF 0x34 0x12 0x00 0x00 [7] V V eq_refl).
Defined.

Lemma serial_number_unchecked_witness :
  (0 ≤ 0x0A ≤ 255)
  ∧ serial_number [0; 16 * 0 + 10; 0; 0; 0] = serial_number [0; 16 * (0 + 1); 0; 0; 0].
Proof.
  split; [lia |].
  apply (serial_number_unchecked 0 0x0A 0 0 0 []); lia.
Defined.

(** ** Construction and finalisation *)

Lemma getitem_at_outside {A : Type} (l : list A) (i : Z) :
  i < - Z.of_nat (length l) ∨ Z.of_nat (length l) ≤ i →
  getitem_at l i = Raise IndexError.
Proof.
  intros Hout. unfold getitem_at.
  destruct (decide (i < 0)); rewrite decide_True; (done || lia).
Qed.

Lemma getitem_at_inside {A : Type} (l : list A) (i : Z) (x : A) :
  - Z.of_nat (length l) ≤ i < Z.of_nat (length l) →
  l !! Z.to_nat (i `mod` Z.of_nat (length l)) = Some x →
  getitem_at l i = Return x.
Proof.
  intros Hin Hx. unfold getitem_at.
  destruct (decide (i < 0)) as [Hneg|Hpos].
  - rewrite decide_False by lia.
    replace (i `mod` Z.of_nat (length l)) with (i + Z.of_nat (length l)) in Hx.
    { by rewrite Hx. }
    apply (Z.mod_unique _ _ (-1)); lia.
  - rewrite decide_False by lia.
    rewrite Z.mod_small in Hx by lia. by rewrite Hx.
Qed.

Section lifetime_facts.
Context {H : Type} `{!Hid H} `{!HidModule H}.
Implicit Types (h : H) (devices : list descriptor).

(** X10: when the index is outside the enumerated devices (at or beyond
    their number, or below minus their number; with no device found, any
    index), __init__ raises IndexError before anything is opened: the object
    has its _hiddevice, the unopened handle hid.device() gave, and no lock. *)
Theorem init_index_out_of_range devices h (index : Z) :
  hid_enumerate VENDORID PIDRUN = Return devices →
  hid_device = Return h →
  index < - Z.of_nat (length devices) ∨ Z.of_nat (length devices) ≤ index →
  Lifetime.__init__ index = (Lifetime.OnlyDevice h, Raise IndexError).
Proof.
  intros He Hd Hout. unfold Lifetime.__init__.
  by rewrite He, Hd, getitem_at_outside.
Qed.

(** X11: an index from minus the number of enumerated devices up to that
    number less one selects a device as Python list indexing does, negative
    indices counting from the end; its path is the one opened, then the
    handle is set to blocking mode (0) and, when both calls return, the
    controller holds that handle, a lock that is free, and can run
    sendCommand.  When open_path or set_nonblocking raises, __init__ raises
    the same and the object has its _hiddevice but no lock. *)
Theorem init_opens_indexed_device devices h (index : Z) (d : descriptor)
    h1 (opened : result ()) h2 (set : result ()) :
  hid_enumerate VENDORID PIDRUN = Return devices →
  hid_device = Return h →
  - Z.of_nat (length devices) ≤ index < Z.of_nat (length devices) →
  devices !! Z.to_nat (index `mod` Z.of_nat (length devices)) = Some d →
  hid_open_path h (path d) = (h1, opened) →
  hid_set_nonblocking h1 0 = (h2, set) →
  (∀ e, opened = Raise e →
     Lifetime.__init__ index = (Lifetime.OnlyDevice h1, Raise e))
  ∧ (∀ e, opened = Return () → set = Raise e →
       Lifetime.__init__ index = (Lifetime.OnlyDevice h2, Raise e))
  ∧ (opened = Return () → set = Return () →
       Lifetime.__init__ index
         = (Lifetime.Constructed (mkController h2 false []), Return ())
       ∧ ∀ command param maxLength timeoutMs,
           is_Some (sendCommand (mkController h2 false [])
                      command param maxLength timeoutMs)).
Proof.
  intros He Hd Hin Hlook Ho Hs. unfold Lifetime.__init__.
  rewrite He, Hd, (getitem_at_inside devices index d Hin Hlook), Ho.
  split_and!.
  - by intros e ->.
  - intros e -> ->. by rewrite Hs.
  - intros -> ->. rewrite Hs. split; [done|].
    intros. by apply sendCommand_not_blocked.
Qed.

(** X12: __del__ fits every way __init__ can end.  The object has no
    _hiddevice exactly when hid.enumerate or hid.device() raised, and then
    __del__ does nothing and returns; otherwise __del__ calls the handle's
    close, opened or not, and ends as that call ends.  __init__ returns
    exactly when it leaves a whole controller, on which this __del__ is the
    Controller's. *)
Theorem del_after_init (index : Z) (o : Lifetime.instance H) (r : result ()) :
  Lifetime.__init__ index = (o, r) →
  (Lifetime.has_device o = false
   ↔ is_Raise (hid_enumerate VENDORID PIDRUN) ∨ is_Raise hid_device)
  ∧ (Lifetime.has_device o = false → Lifetime.__del__ o = (o, Return ()))
  ∧ (∀ h, o = Lifetime.OnlyDevice h →
       is_Raise r
       ∧ Lifetime.__del__ o
         = (Lifetime.OnlyDevice (hid_close h).1, (hid_close h).2))
  ∧ (∀ c, o = Lifetime.Constructed c →
       r = Return () ∧ _lock c = false ∧ calls c = []
       ∧ ∀ c' r', __del__ c = Some (c', r')
                  ↔ Lifetime.__del__ o = (Lifetime.Constructed c', r'))
  ∧ (r = Return () → ∃ c, o = Lifetime.Constructed c).
Proof.
  unfold Lifetime.__init__. intros Hinit.
  assert (∀ c, ∀ c' r', __del__ c = Some (c', r')
            ↔ Lifetime.__del__ (Lifetime.Constructed c)
              = (Lifetime.Constructed c', r')) as Hsame.
  { intros c c' r'. unfold __del__, Lifetime.__del__.
    destruct (hid_close (_hiddevice c)) as [hc rc]. split.
    - by intros [= <- <-].
    - by intros [= <- <-]. }
  assert (∀ h, Lifetime.__del__ (Lifetime.OnlyDevice h)
               = (Lifetime.OnlyDevice (hid_close h).1, (hid_close h).2))
    as Honly.
  { intros h. unfold Lifetime.__del__. by destruct (hid_close h). }
  destruct (hid_enumerate VENDORID PIDRUN) as [devices|e1].
  2:{ injection Hinit as <- <-.
      split; [|split; [|split; [|split]]]; try done.
      split; [|done]. intros _. left. by exists e1. }
  destruct hid_device as [h0|e2].
  2:{ injection Hinit as <- <-.
      split; [|split; [|split; [|split]]]; try done.
      split; [|done]. intros _. right. by exists e2. }
  assert (¬ (is_Raise (Return devices) ∨ is_Raise (Return h0))) as Hno.
  { intros [[e [=]] | [e [=]]]. }
  assert (∀ h e, (Lifetime.has_device (Lifetime.OnlyDevice h) = false
                  ↔ is_Raise (Return devices) ∨ is_Raise (Return h0))
                 ∧ (∀ h', Lifetime.OnlyDevice h = Lifetime.OnlyDevice h' →
                      is_Raise (Raise e : result ())
                      ∧ Lifetime.__del__ (Lifetime.OnlyDevice h)
                        = (Lifetime.OnlyDevice (hid_close h').1,
                           (hid_close h').2))) as Hhalf.
  { intros h e. split.
    - split; [done | by intros Hc].
    - intros h' [= <-]. split; [by exists e | apply Honly]. }
  destruct (getitem_at devices index) as [d|e3].
  2:{ injection Hinit as <- <-.
      split; [apply (Hhalf h0 e3) | split; [done | split; [apply Hhalf |]]].
      split; [done | intros [=]]. }
  destruct (hid_open_path h0 (path d)) as [h1 [[]|e4]].
  2:{ injection Hinit as <- <-.
      split; [apply (Hhalf h1 e4) | split; [done | split; [apply Hhalf |]]].
      split; [done | intros [=]]. }
  destruct (hid_set_nonblocking h1 0) as [h2 [[]|e5]].
  2:{ injection Hinit as <- <-.
      split; [apply (Hhalf h2 e5) | split; [done | split; [apply Hhalf |]]].
      split; [done | intros [=]]. }
  injection Hinit as <- <-.
  split; [|split; [done | split; [done | split]]].
  - split; [done | by intros Hc].
  - intros c [= <-]. split; [done | split; [done | split; [done | apply Hsame]]].
  - intros _. by eexists.
Qed.

End lifetime_facts.

Lemma init_index_out_of_range_witness :
  hid_enumerate (H:=Scripted) VENDORID PIDRUN = Return two_devices
  ∧ hid_device = Return (mkScripted (Return 16) [] 0)
  ∧ (2 < - Z.of_nat (length two_devices) ∨ Z.of_nat (length two_devices) ≤ 2)
  ∧ Lifetime.__init__ 2
    = (Lifetime.OnlyDevice (mkScripted (Return 16) [] 0), Raise IndexError).
Proof.
  split; [reflexivity | split; [reflexivity | split; [right; cbn; lia |]]].
  apply (init_index_out_of_range two_devices (mkScripted (Return 16) [] 0) 2);
    [reflexivity | reflexivity | right; cbn; lia].
Defined.

Lemma init_opens_indexed_device_witness :
  hid_enumerate (H:=Scripted) VENDORID PIDRUN = Return two_devices
  ∧ hid_device = Return (mkScripted (Return 16) [] 0)
  ∧ (- Z.of_nat (length two_devices) ≤ -1 < Z.of_nat (length two_devices))
  ∧ two_devices !! Z.to_nat ((-1) `mod` Z.of_nat (length two_devices))
    = Some (mkDescriptor "usb-2")
  ∧ hid_open_path (mkScripted (Return 16) [] 0) "usb-2"
    = (mkScripted (Return 16) [] 0, Return ())
  ∧ hid_set_nonblocking (mkScripted (Return 16) [] 0) 0
    = (mkScripted (Return 16) [] 0, Return ())
  ∧ Lifetime.__init__ (-1)
    = (Lifetime.Constructed (mkController (mkScripted (Return 16) [] 0) false []),
       Return ()).
Proof.
  split; [reflexivity | split; [reflexivity | split; [cbn; lia |
    split; [reflexivity | split; [reflexivity | split; [reflexivity |]]]]]].
  apply (init_opens_indexed_device two_devices (mkScripted (Return 16) [] 0)
           (-1) (mkDescriptor "usb-2") (mkScripted (Return 16) [] 0) (Return ())
           (mkScripted (Return 16) [] 0) (Return ()));
    [reflexivity | reflexivity | cbn; lia | reflexivity | reflexivity
    | reflexivity | reflexivity | reflexivity].
Defined.

Lemma del_after_init_witness :
  Lifetime.__init__ 5
    = (Lifetime.OnlyDevice (mkScripted (Return 16) [] 0), Raise IndexError)
  ∧ Lifetime.__del__ (Lifetime.OnlyDevice (mkScripted (Return 16) [] 0))
    = (Lifetime.OnlyDevice (mkScripted (Return 16) [] 1), Return ()).
Proof.
  split; [reflexivity |].
  assert (Lifetime.__init__ 5
          = (Lifetime.OnlyDevice (mkScripted (Return 16) [] 0), Raise IndexError))
    as Hinit by reflexivity.
  exact (proj2 (proj1 (proj2 (proj2 (del_after_init 5 _ _ Hinit))) _ eq_refl)).
Defined.

(** ** Threads: who holds the lock *)

Section progress.
Import Threads.
Context {H : Type} `{!Hid H}.
Implicit Types (s : system H).

(** A held lock has a holder. *)
Lemma holder_step s s' :
  (lock s = true → ∃ i p, threads s !! i = Some p ∧ inside p = true) →
  step s s' →
  lock s' = true → ∃ i p, threads s' !! i = Some p ∧ inside p = true.
Proof.
  intros Hinv Hstep.
  assert (∀ t q q',
            threads s !! t = Some q → (inside q = true → inside q' = true) →
            lock s = true →
            ∃ i p, <[t := q']> (threads s) !! i = Some p ∧ inside p = true)
    as Hkeep.
  { intros t q q' Ht Himp Hl. destruct (Hinv Hl) as (i & p & Hi & Hp).
    destruct (decide (i = t)) as [->|Hne].
    - exists t, q'. split.
      + apply list_lookup_insert_eq. by eapply lookup_lt_Some.
      + apply Himp. congruence.
    - exists i, p. by rewrite list_lookup_insert_ne. }
  destruct Hstep as
    [ s t command param maxLength timeoutMs Ht
    | s t command param maxLength timeoutMs Ht Hfree
    | s t command param maxLength timeoutMs Ht
    | s t buffer maxLength timeoutMs h result Ht Hw
    | s t maxLength timeoutMs h answer Ht Hr
    | s t answer Ht ]; cbn.
  - by apply (Hkeep t Idle).
  - intros _. exists t, (Building command param maxLength timeoutMs).
    split; [|done]. apply list_lookup_insert_eq. by eapply lookup_lt_Some.
  - apply (Hkeep t (Building command param maxLength timeoutMs)); [done|].
    intros _. by destruct (frame _ _ _).
  - apply (Hkeep t (Writing buffer maxLength timeoutMs)); [done|].
    intros _. by destruct result.
  - by apply (Hkeep t (Reading maxLength timeoutMs)).
  - done.
Qed.

Lemma holder_reachable (h : H) (n : nat) s :
  rtc step (init h n) s →
  lock s = true → ∃ i p, threads s !! i = Some p ∧ inside p = true.
Proof.
  revert s. apply (rtc_ind_r
    (λ s, lock s = true → ∃ i p, threads s !! i = Some p ∧ inside p = true)).
  - done.
  - intros s1 s2 _ Hstep IH. by eapply holder_step.
Qed.

(** X14: in every state the threads can reach, the lock is held exactly when
    some thread is between taking and releasing it: a lock that is held
    always has a thread that will release it, and a thread inside never runs
    without the lock. *)
Theorem lock_held_iff_thread_inside (h : H) (n : nat) s :
  rtc step (init h n) s →
  lock s = true ↔ ∃ i p, threads s !! i = Some p ∧ inside p = true.
Proof.
  intros Hreach. split.
  - by apply (holder_reachable h n).
  - intros (i & p & Hi & Hp).
    destruct (invariant_reachable h n s Hreach) as (_ & Hlock & _).
    by eapply Hlock.
Qed.

End progress.

Lemma thread_transaction_witness :
  Threads.threads (Threads.init (mkScripted (Return 16) [Return [0; RUN]] 0) 1)
    !! 0%nat = Some Threads.Idle
  ∧ Threads.lock (Threads.init (mkScripted (Return 16) [Return [0; RUN]] 0) 1)
    = false
  ∧ frame GETONOFF 0 16 = Return (0 :: GETONOFF :: 0 :: replicate 13 0)
  ∧ hid_write (mkScripted (Return 16) [Return [0; RUN]] 0)
        (0 :: GETONOFF :: 0 :: replicate 13 0)
    = (mkScripted (Return 16) [Return [0; RUN]] 0, Return 16)
  ∧ hid_read (mkScripted (Return 16) [Return [0; RUN]] 0) 16 100
    = (mkScripted (Return 16) [] 0, Return [0; RUN])
  ∧ sendCommand (mkController (mkScripted (Return 16) [Return [0; RUN]] 0) false [])
      GETONOFF 0 16 100
    = Some (mkController (mkScripted (Return 16) [] 0) false
              [CallWrite (0 :: GETONOFF :: 0 :: replicate 13 0); CallRead 16 100],
            Return [0; RUN]).
Proof.
  split; [reflexivity | split; [reflexivity | split; [reflexivity |
    split; [reflexivity | split; [reflexivity |]]]]].
  exact (proj1 (thread_transaction
                  (Threads.init (mkScripted (Return 16) [Return [0; RUN]] 0) 1)
                  0%nat GETONOFF 0 16 100
                  (0 :: GETONOFF :: 0 :: replicate 13 0)
                  (mkScripted (Return 16) [Return [0; RUN]] 0) 16
                  (mkScripted (Return 16) [] 0) (Return [0; RUN])
                  eq_refl eq_refl eq_refl eq_refl eq_refl)).
Defined.

Lemma lock_held_iff_thread_inside_witness :
  rtc Threads.step (Threads.init (mkScripted (Return 16) [Return [0; RUN]] 0) 2)
    two_threads_later
  ∧ (Threads.lock two_threads_later = true
     ↔ ∃ i p, Threads.threads two_threads_later !! i = Some p
              ∧ Threads.inside p = true).
Proof.
  split; [exact two_threads_run |].
  exact (lock_held_iff_thread_inside _ 2 two_threads_later two_threads_run).
Defined.
